(* ===== verification/_CoqProject ===== *)
-Q . S2P
Prelude.v
Keycodes.v
Spec.v
InputBuffer.v
Stack.v
SendInt.v
Calc.v
Properties.v
