(* ===== verification/Prelude.v ===== *)
(** * A verification development of the RPN-calculator keymap of EnvKB-QMK

    The program is one C file, [src/mcro/rpncalc/keymaps/default/keymap.c]:
    a QMK keymap that turns a 3x4 macro pad into a Reverse-Polish calculator.
    Key-down events of the custom keycodes [RPN_0 .. RPN_LIST] are handled
    by [process_record_user]; the calculator's answers are typed back to
    the host as synthesized keystrokes ([SEND_STRING], [tap_code]).

    ** The parts of the program and how they interact

    - Input buffer ([inbuf], [inbufpos], [record_input], [backspace_input],
      [pop_inbuf]): the digits typed so far, as an array of 16 [uint8_t]
      with a [uint8_t] fill counter, capacity [MAX_INPUT] = 15.
      Modelled in [InputBuffer.v] (Module [InputBuffer]).
    - Stack ([stack], [stackpos], [stack_push], [stack_pop], [stack_peek]):
      an array of 1024 [int32_t] with a [uint16_t] depth counter.
      Modelled in [Stack.v] (Module [Stack]).
    - Formatter ([keyvalmap], [send_int]): prints an [int32_t] as digit
      keystrokes through a 12-slot digit buffer.  Modelled in [SendInt.v]
      (Module [SendInt]).
    - Keycodes and keymap ([enum rpn_state], [enum custom_keycodes],
      [keymaps]): modelled in [Keycodes.v] (Module [Keycodes]).
    - Dispatcher ([input_push], [DO_NUMBER], [process_record_user]): the
      key handler that commits the input buffer to the stack, performs the
      operator and echoes a transcript line.  Modelled in [Calc.v]
      (Module [Calc]), one Definition per [case] of the switch.

    ** How state and effects are represented

    - The process-wide [static] variables become one record
      [Calc.calc_state] threaded explicitly through every handler.  Arrays
      are stdpp lists updated by index ([<[i:=v]>]); their lengths (16 and
      1024) are part of the well-formedness invariants.
    - [int32_t] values are [Z] kept in range by [wrap32]: the spec states
      that arithmetic wraps with two's complement semantics, and that is
      what the target compiles to.  Unsigned counters are [nat] with the
      [uint8_t]/[uint16_t] wrap written out ([u8_incr], [u16_incr]);
      the invariants show that the wrap never fires.
    - Output is a list of [out_event]s ([SendString] for [SEND_STRING] /
      [send_string], [TapCode] for [tap_code]).
    - Behaviour the C standard leaves undefined and that the code can reach
      (reading [keyvalmap] out of bounds, dividing by zero) is an explicit
      [Undefined] outcome of the small error monad [outcome] below.

    ** Abstract specification

    [Spec.v] states the calculator the spec describes on abstract data: the
    typed digits as a list and the stack as a top-first list of bounded
    length.  [Calc.process_key_refines] proves that the array-based code
    refines it: every key handler that returns maps the abstract view of
    the old state to the spec's new state; [Calc.process_key_undefined_iff]
    says exactly when a handler does not return.

    ** What the theorems show (groups)

    - [Prelude]: wrap-around arithmetic is arithmetic modulo 2^32.
    - [InputBuffer]: invariant, saturation at 15 digits, [pop_inbuf]
      computes the decimal value of the typed digits modulo 2^32.
    - [Stack]: invariant, refinement of the array stack by a bounded list.
    - [SendInt]: non-negative values print as their canonical decimal
      representation, which is unique and equal to the reference
      conversion [decimal] by repeated division; every negative value
      reads [keyvalmap] out of bounds.
    - [Keycodes]: data only (the enums, the decoder and the keymap table);
      the decoder is used by [Calc.process_record_user].
    - [Calc]: the invariant of the whole state ([calc_wf]) is preserved by
      every handler and holds in every state [reachable] from power-up;
      every handler refines [Spec.spec_key]; and the handlers have
      undefined behaviour exactly when [key_undefined] says so.
    - [Properties] ([Properties.v]): the refinement lifted to key
      sequences ([run_keys], [spec_run]), and the properties a user of the
      calculator sees: ENTER pushes the typed number, SWAP exchanges the
      two top values, ADD/SUB/MUL/DIV compute [x op b] with their
      acknowledgement, DUP then POP restores the stack, operators on an
      empty calculator answer their message, and the divergences from the
      spec (division by zero, the message of a failed swap, DUP on a full
      stack, LIST on an empty stack), the exact output of LIST, and the
      transcript quirks (a digit echoed into a full buffer, a backspace
      tapped on an empty one).

    Theorems used by other proofs are stated once as a lemma with suffix
    [_aux]; the theorem without the suffix states the same property for
    the reader and is not used elsewhere.  Each theorem with hypotheses has
    a [_witness] lemma applying it to a concrete state built by running
    keys from power-up ([Properties.state_after]).

    ** Bounds and fuel

    No definition needs fuel: every loop of the C code counts a bounded
    integer down or up, and is modelled by structural recursion on that
    count ([pop_inbuf_loop] on [inbufpos], [send_int_fill] and
    [send_int_emit] on the 12 slots, [rpn_list_loop] on [stackpos]).
    The capacities are those of the code: 15 digits, 1024 stack cells,
    12 output digits (enough for the 10 digits of an [int32_t]); the
    invariants show that the [uint8_t] and [uint16_t] counters stay below
    16 and 1025, so their wrap-around never fires.

    ** Not modelled

    The QMK host (matrix scan, [tap_code] and [send_string] themselves,
    USB HID), [pico_eeprom.h] and the numeric values of [SAFE_RANGE] and
    the [KC_*] codes: they are external to the source.  [SAFE_RANGE] is a
    parameter of the key decoder.

    This file, [Prelude.v], holds the shared vocabulary: wrap-around integer
    operations, the [outcome] monad, decimal digit lists, the hint database
    [rpn] and the tactics used across the development. *)

From stdpp Require Export base list sets strings.
From Stdlib Require Export ZArith Lia.

Declare Scope rpn_scope.
Delimit Scope rpn_scope with rpn.
Open Scope Z_scope.

(** ** Machine integers *)

Definition INT32_MIN : Z := -2147483648.
Definition INT32_MAX : Z := 2147483647.

(** Two's complement reduction of a mathematical integer to [int32_t]. *)
Definition wrap32 (z : Z) : Z := (z + 2 ^ 31) mod 2 ^ 32 - 2 ^ 31.

Definition int32_range (z : Z) : Prop := INT32_MIN <= z <= INT32_MAX.

(** Close a goal of [int32_range] or bound arithmetic. *)
Ltac int32_lia := unfold int32_range, INT32_MIN, INT32_MAX in *; lia.

Definition add32 (a b : Z) : Z := wrap32 (a + b).
Definition sub32 (a b : Z) : Z := wrap32 (a - b).
Definition mul32 (a b : Z) : Z := wrap32 (a * b).
Definition neg32 (a : Z) : Z := wrap32 (- a).

(** Conversion to an unsigned type on assignment ([uint16_t x = v]). *)
Definition to_u16 (z : Z) : Z := z mod 2 ^ 16.
Definition to_u8 (z : Z) : Z := z mod 2 ^ 8.

(** [x++] on an unsigned counter of 8 and 16 bits. *)
Definition u8_incr (n : nat) : nat := (n + 1) mod 2 ^ 8.
Definition u16_incr (n : nat) : nat := (n + 1) mod 2 ^ 16.

(** ** The outcome of running C code: a value, or undefined behaviour *)

Inductive undefined_behaviour :=
| UB_out_of_bounds (array : string)
| UB_division_by_zero.

Inductive outcome (A : Type) : Type :=
| Ok (a : A)
| Undefined (u : undefined_behaviour).
Arguments Ok {A} a.
Arguments Undefined {A} u.

Definition obind {A B} (m : outcome A) (f : A -> outcome B) : outcome B :=
  match m with
  | Ok a => f a
  | Undefined u => Undefined u
  end.

Notation "x <- m ;; k" := (obind m (fun x => k))
  (at level 100, m at next level, right associativity) : rpn_scope.

(** ** Decimal digit lists, most significant digit first *)

Definition digits_value (ds : list Z) : Z := foldl (fun acc d => acc * 10 + d) 0 ds.

Definition is_digit (d : Z) : Prop := 0 <= d < 10.

(** ** Lemmas on machine integers *)

Lemma wrap32_mod z : wrap32 z mod 2 ^ 32 = z mod 2 ^ 32.
Proof. unfold wrap32. Z.div_mod_to_equations. lia. Qed.

Lemma wrap32_range z : int32_range (wrap32 z).
Proof. unfold int32_range, INT32_MIN, INT32_MAX, wrap32. Z.div_mod_to_equations. lia. Qed.

Lemma wrap32_small z : int32_range z -> wrap32 z = z.
Proof. unfold int32_range, INT32_MIN, INT32_MAX, wrap32. intros. Z.div_mod_to_equations. lia. Qed.

Lemma wrap32_eq_mod a b : a mod 2 ^ 32 = b mod 2 ^ 32 -> wrap32 a = wrap32 b.
Proof. unfold wrap32. intros. Z.div_mod_to_equations. lia. Qed.

Lemma wrap32_idem z : wrap32 (wrap32 z) = wrap32 z.
Proof. apply wrap32_small, wrap32_range. Qed.

Lemma wrap32_add_l a b : wrap32 (wrap32 a + b) = wrap32 (a + b).
Proof. apply wrap32_eq_mod. rewrite Zplus_mod, wrap32_mod, <- Zplus_mod. reflexivity. Qed.

Lemma wrap32_add_r a b : wrap32 (a + wrap32 b) = wrap32 (a + b).
Proof. rewrite (Z.add_comm a), wrap32_add_l, Z.add_comm. reflexivity. Qed.

Lemma wrap32_mul_l a b : wrap32 (wrap32 a * b) = wrap32 (a * b).
Proof. apply wrap32_eq_mod. rewrite Zmult_mod, wrap32_mod, <- Zmult_mod. reflexivity. Qed.

Lemma wrap32_mul_r a b : wrap32 (a * wrap32 b) = wrap32 (a * b).
Proof. rewrite (Z.mul_comm a), wrap32_mul_l, Z.mul_comm. reflexivity. Qed.

Lemma wrap32_opp a : wrap32 (- wrap32 a) = wrap32 (- a).
Proof.
  apply wrap32_eq_mod. pose proof (wrap32_mod a). generalize dependent (wrap32 a).
  intros. Z.div_mod_to_equations. lia.
Qed.

(** The counters of the program never exceed 15 and 1024: below those
    bounds the unsigned increment does not wrap. *)
Lemma u8_incr_small n : (n < 15)%nat -> u8_incr n = S n.
Proof.
  unfold u8_incr. intros. rewrite Nat.mod_small; [lia|].
  apply Nat.lt_le_trans with 16%nat; [lia | apply Nat.leb_le; reflexivity].
Qed.

Lemma u16_incr_small n : (n < 1024)%nat -> u16_incr n = S n.
Proof.
  unfold u16_incr. intros. rewrite Nat.mod_small; [lia|].
  apply Nat.lt_le_trans with 1025%nat; [lia | apply Nat.leb_le; reflexivity].
Qed.

(** ** Congruence modulo 2^32

    [wrap32] only depends on its argument modulo 2^32, and the ring
    operations respect that congruence: proofs about nested wrap-around
    arithmetic rewrite every inner [wrap32 x] to [x] under [eqm32] and
    finish with [ring]. *)

Definition eqm32 (a b : Z) : Prop := a mod 2 ^ 32 = b mod 2 ^ 32.

#[export] Instance eqm32_equiv : Equivalence eqm32.
Proof. unfold eqm32. split; red; intros; congruence. Qed.

#[export] Instance add_eqm32 : Proper (eqm32 ==> eqm32 ==> eqm32) Z.add.
Proof. intros a a' Ha b b' Hb. unfold eqm32 in *. rewrite Zplus_mod, Ha, Hb, <- Zplus_mod. done. Qed.

#[export] Instance mul_eqm32 : Proper (eqm32 ==> eqm32 ==> eqm32) Z.mul.
Proof. intros a a' Ha b b' Hb. unfold eqm32 in *. rewrite Zmult_mod, Ha, Hb, <- Zmult_mod. done. Qed.

#[export] Instance opp_eqm32 : Proper (eqm32 ==> eqm32) Z.opp.
Proof. intros a a' Ha. unfold eqm32 in *. Z.div_mod_to_equations. lia. Qed.

#[export] Instance sub_eqm32 : Proper (eqm32 ==> eqm32 ==> eqm32) Z.sub.
Proof. intros a a' Ha b b' Hb. rewrite <- !Z.add_opp_r, Ha, Hb. done. Qed.

#[export] Instance wrap32_proper : Proper (eqm32 ==> eq) wrap32.
Proof. intros a b H. by apply wrap32_eq_mod. Qed.

Lemma wrap32_eqm a : eqm32 (wrap32 a) a.
Proof. apply wrap32_mod. Qed.

Lemma eqm32_of_eq a b : a = b -> eqm32 a b.
Proof. intros ->. reflexivity. Qed.

(** Prove [wrap32 x = wrap32 y] when [x] and [y] are equal as ring
    expressions once every inner [wrap32] is dropped. *)
Ltac wrap32_ring :=
  apply wrap32_proper; rewrite ?wrap32_eqm; apply eqm32_of_eq; ring.

(** ** Lemmas on digit lists *)

Lemma digits_value_snoc ds d : digits_value (ds ++ [d]) = digits_value ds * 10 + d.
Proof. unfold digits_value. rewrite foldl_app. reflexivity. Qed.

Lemma digits_value_bound ds :
  Forall is_digit ds -> 0 <= digits_value ds < 10 ^ Z.of_nat (length ds).
Proof.
  induction ds as [|d ds IH] using rev_ind; intros Hall.
  - split; [compute; discriminate | reflexivity].
  - apply Forall_app in Hall as [Hds Hd]. apply Forall_inv in Hd.
    unfold is_digit in Hd. specialize (IH Hds).
    rewrite digits_value_snoc, length_app, Nat2Z.inj_add.
    rewrite Z.pow_add_r by (apply Nat2Z.is_nonneg).
    change (10 ^ Z.of_nat (length [d])) with 10. nia.
Qed.

(** Nine decimal digits always fit in an [int32_t]. *)
Lemma digits_value_int32 ds :
  Forall is_digit ds -> (length ds <= 9)%nat -> int32_range (digits_value ds).
Proof.
  intros Hd Hn. pose proof (digits_value_bound _ Hd) as Hb.
  assert (10 ^ Z.of_nat (length ds) <= 10 ^ 9) by (apply Z.pow_le_mono_r; lia).
  int32_lia.
Qed.

Lemma pow10_succ n : 10 ^ Z.of_nat (S n) = 10 * 10 ^ Z.of_nat n.
Proof. rewrite Nat2Z.inj_succ, Z.pow_succ_r by lia. done. Qed.

Lemma digits_value_foldl a ds :
  foldl (fun acc d => acc * 10 + d) a ds = a * 10 ^ Z.of_nat (length ds) + digits_value ds.
Proof.
  revert a. induction ds as [|d ds IH]; intros a; [cbn; lia|].
  cbn [foldl length]. rewrite IH, pow10_succ.
  assert (E : digits_value (d :: ds) = foldl (fun acc d => acc * 10 + d) d ds) by reflexivity.
  rewrite E, IH. ring.
Qed.

(** The leading digit weighs [10 ^ (number of digits after it)]. *)
Lemma digits_value_cons d ds :
  digits_value (d :: ds) = d * 10 ^ Z.of_nat (length ds) + digits_value ds.
Proof. unfold digits_value at 1. cbn [foldl]. rewrite digits_value_foldl. lia. Qed.

(** Digit lists of the same length denote the same number only if they
    are equal. *)
Lemma digits_eq_length ds es :
  Forall is_digit ds -> Forall is_digit es -> length ds = length es ->
  digits_value ds = digits_value es -> ds = es.
Proof.
  revert es. induction ds as [|d ds IH]; intros [|e es] Hd He Hl Hv; try done.
  apply Forall_cons in Hd as [Hd Hds]. apply Forall_cons in He as [He Hes].
  simplify_eq/=. rewrite !digits_value_cons, <- Hl in Hv.
  pose proof (digits_value_bound _ Hds). pose proof (digits_value_bound _ Hes).
  rewrite <- Hl in *. unfold is_digit in *.
  assert (d = e) as <- by nia. f_equal. apply IH; [done..|lia].
Qed.

(** ** Lemmas on arrays as lists *)

(** Writing the cell just past a prefix extends the prefix by that value:
    the [a[n++] = v] idiom. *)
Lemma take_insert_snoc {A} (l : list A) i x :
  (i < length l)%nat -> take (S i) (<[i := x]> l) = take i l ++ [x].
Proof.
  intros Hi. rewrite (take_S_r _ _ x), take_insert_ge by (try apply list_lookup_insert_eq; lia).
  done.
Qed.

(** A prefix one longer is the shorter prefix and the next cell. *)
Lemma take_S_total {A} `{Inhabited A} (l : list A) i :
  (i < length l)%nat -> take (S i) l = take i l ++ [l !!! i].
Proof. intros Hi. apply take_S_r, list_lookup_lookup_total_lt. done. Qed.

(** ** Lemmas on the outcome monad *)

Lemma obind_Ok {A B} (m : outcome A) (f : A -> outcome B) b :
  obind m f = Ok b -> exists a, m = Ok a /\ f a = Ok b.
Proof. destruct m; simpl; [eauto | discriminate]. Qed.

Create HintDb rpn.
Create Rewrite HintDb rpn_rw.
#[export] Hint Rewrite wrap32_add_l wrap32_add_r wrap32_mul_l wrap32_mul_r
  wrap32_opp wrap32_idem digits_value_snoc : rpn_rw.
#[export] Hint Resolve wrap32_range : rpn.


(** Invert an [outcome] equation produced by a bind. *)
Ltac inv_obind H :=
  let a := fresh "a" in
  let Hm := fresh "Hm" in
  apply obind_Ok in H as (a & Hm & H).
