(* ===== verification/Keycodes.v ===== *)
(** * Keycodes and keymap of [keymap.c]

    The enums [rpn_state] (lines 19-21) and [custom_keycodes] (lines 23-46),
    the decoding of a 16-bit QMK keycode into a custom keycode (the C enum
    numbers its constants consecutively from [SAFE_RANGE]), the digit
    keycodes of [keyvalmap] and the two-layer [keymaps] table (lines
    291-303).  [SAFE_RANGE] and the values of the [KC_*] codes are defined
    by QMK, outside the source: the decoder takes [SAFE_RANGE] as a
    parameter, and the basic keycodes are an enumeration of the names the
    source uses. *)

From S2P Require Import Prelude.

Module Keycodes.

(** [enum rpn_state]: the processing mode; the source has one. *)
Inductive rpn_state := S_NUMBER.

(** [enum custom_keycodes], in declaration order. *)
Inductive custom_keycodes :=
| RPN_0 | RPN_1 | RPN_2 | RPN_3 | RPN_4 | RPN_5 | RPN_6 | RPN_7 | RPN_8 | RPN_9
| RPN_ENTER | RPN_BSPC | RPN_ADD | RPN_SUB | RPN_NEG | RPN_DIV | RPN_MUL
| RPN_DUP | RPN_POP | RPN_PEEK | RPN_SWAP | RPN_LIST.

#[export] Instance custom_keycodes_eq_dec : EqDecision custom_keycodes.
Proof. solve_decision. Defined.

(** The constants of the enum in the order the C compiler numbers them. *)
Definition custom_keycodes_enum : list custom_keycodes :=
  [RPN_0; RPN_1; RPN_2; RPN_3; RPN_4; RPN_5; RPN_6; RPN_7; RPN_8; RPN_9;
   RPN_ENTER; RPN_BSPC; RPN_ADD; RPN_SUB; RPN_NEG; RPN_DIV; RPN_MUL;
   RPN_DUP; RPN_POP; RPN_PEEK; RPN_SWAP; RPN_LIST].

(** The [switch (kc)] of [process_record_user]: which custom keycode, if
    any, a 16-bit keycode is. *)
Definition decode_keycode (SAFE_RANGE kc : Z) : option custom_keycodes :=
  if decide (SAFE_RANGE <= kc) then custom_keycodes_enum !! Z.to_nat (kc - SAFE_RANGE)
  else None.

(** The digit of a digit keycode: [DO_NUMBER(n)] handles [RPN_##n]. *)
Definition digit_of_keycode (c : custom_keycodes) : option Z :=
  match c with
  | RPN_0 => Some 0 | RPN_1 => Some 1 | RPN_2 => Some 2 | RPN_3 => Some 3
  | RPN_4 => Some 4 | RPN_5 => Some 5 | RPN_6 => Some 6 | RPN_7 => Some 7
  | RPN_8 => Some 8 | RPN_9 => Some 9
  | _ => None
  end.

(** The QMK basic keycodes the source names. *)
Inductive basic_keycode :=
| KC_0 | KC_1 | KC_2 | KC_3 | KC_4 | KC_5 | KC_6 | KC_7 | KC_8 | KC_9
| KC_BSPC.

#[export] Instance basic_keycode_eq_dec : EqDecision basic_keycode.
Proof. solve_decision. Defined.

(** An entry of the keymap table. *)
Inductive keymap_entry :=
| KM_RPN (c : custom_keycodes)
| KM_OSL (layer : nat)
| KM_TRNS.

#[export] Instance keymap_entry_eq_dec : EqDecision keymap_entry.
Proof. solve_decision. Defined.

(** [keymaps[][MATRIX_ROWS][MATRIX_COLS]]: two layers of 3 rows by 4
    columns.  Layer 0 holds the digits, ENTER and the one-shot layer key
    [OSL(1)]; layer 1 holds the operators. *)
Definition keymaps : list (list (list keymap_entry)) :=
  [ [ [KM_OSL 1;       KM_RPN RPN_7; KM_RPN RPN_4; KM_RPN RPN_1];
      [KM_RPN RPN_0;   KM_RPN RPN_8; KM_RPN RPN_5; KM_RPN RPN_2];
      [KM_RPN RPN_ENTER; KM_RPN RPN_9; KM_RPN RPN_6; KM_RPN RPN_3] ];
    [ [KM_TRNS;         KM_RPN RPN_DUP;  KM_RPN RPN_MUL;  KM_RPN RPN_ADD];
      [KM_RPN RPN_LIST; KM_RPN RPN_PEEK; KM_RPN RPN_DIV;  KM_RPN RPN_SUB];
      [KM_RPN RPN_SWAP; KM_RPN RPN_POP;  KM_RPN RPN_BSPC; KM_RPN RPN_NEG] ] ].

End Keycodes.
