(* ===== verification/Spec.v ===== *)
(** * The abstract calculator of the spec

    The calculator as the spec (sections 3 and 4) describes it, on abstract
    data: the typed digits as a list (first typed first) and the stack as a
    top-first list of at most [CAPACITY] values.  It is the specification
    the array-based code of [Calc.v] is proved to refine
    ([Calc.process_key_refines]); it models no code of its own.  Pushing
    onto a full stack drops the value, as the spec's saturating-ignore
    policy says; a division by zero leaves the stack unchanged, as the
    spec requires (sections 4.2 and 7). *)

From S2P Require Import Prelude Keycodes.
Import Keycodes.

Module Spec.

Definition CAPACITY : nat := 1024.
Definition INPUT_CAPACITY : nat := 15.

(** [push(v)]: append if depth < capacity, else drop. *)
Definition apush (v : Z) (st : list Z) : list Z :=
  if decide (length st < CAPACITY)%nat then v :: st else st.

(** [pop()]: the top, or 0 and no change on an empty stack. *)
Definition apop (st : list Z) : list Z * Z :=
  match st with
  | [] => ([], 0)
  | v :: st' => (st', v)
  end.

Record astate := mk_astate { a_input : list Z; a_stack : list Z }.

(** Commit: a non-empty input is converted (modulo 2^32, the width of
    the stack's cells) and pushed. *)
Definition a_commit (a : astate) : astate :=
  match a_input a with
  | [] => a
  | ds => mk_astate [] (apush (wrap32 (digits_value ds)) (a_stack a))
  end.

Definition a_set_stack (a : astate) (st : list Z) : astate := mk_astate (a_input a) st.

(** A binary operator [a op b] on the two top values, [b] the top; no
    change below depth 2. *)
Definition a_binop (f : Z -> Z -> Z) (a : astate) : astate :=
  match a_stack a with
  | b :: x :: r => a_set_stack a (f x b :: r)
  | _ => a
  end.

(** The new abstract state after a key-down of each custom keycode. *)
Definition spec_key (c : custom_keycodes) (a : astate) : astate :=
  match digit_of_keycode c with
  | Some n =>
      if decide (length (a_input a) < INPUT_CAPACITY)%nat
      then mk_astate (a_input a ++ [n]) (a_stack a) else a
  | None =>
    match c with
    | RPN_BSPC => mk_astate (removelast (a_input a)) (a_stack a)
    | RPN_POP => let a := a_commit a in a_set_stack a (fst (apop (a_stack a)))
    | RPN_ADD => a_binop add32 (a_commit a)
    | RPN_SUB => a_binop sub32 (a_commit a)
    | RPN_MUL => a_binop mul32 (a_commit a)
    | RPN_DIV =>
        let a := a_commit a in
        match a_stack a with
        | b :: _ => if decide (b = 0) then a else a_binop (fun x b => wrap32 (Z.quot x b)) a
        | [] => a
        end
    | RPN_NEG =>
        let a := a_commit a in
        match a_stack a with
        | x :: r => a_set_stack a (neg32 x :: r)
        | [] => a
        end
    | RPN_DUP =>
        let a := a_commit a in
        match a_stack a with
        | x :: r => a_set_stack a (apush x (apush x r))
        | [] => a
        end
    | RPN_SWAP =>
        let a := a_commit a in
        match a_stack a with
        | b :: x :: r => a_set_stack a (x :: b :: r)
        | _ => a
        end
    | _ => a_commit a
    end
  end.

(** ** Lemmas *)

Lemma length_apush v st :
  length (apush v st) = if decide (length st < CAPACITY)%nat then S (length st) else length st.
Proof. unfold apush. case_decide; reflexivity. Qed.

Lemma apush_bound v st : (length st <= CAPACITY)%nat -> (length (apush v st) <= CAPACITY)%nat.
Proof. rewrite length_apush. case_decide; lia. Qed.

End Spec.
