(* ===== verification/InputBuffer.v ===== *)
(** * The input buffer: [inbuf], [inbufpos], [record_input],
      [backspace_input], [pop_inbuf] (keymap.c lines 51-80)

    The buffer is the array [uint8_t inbuf[MAX_INPUT + 1]] with the fill
    counter [uint8_t inbufpos].  Its abstract view is the list of the
    digits typed so far, [take inbufpos inbuf], in typing order.  The loop
    of [pop_inbuf] is [pop_inbuf_loop], by structural recursion on the loop
    counter. *)

From S2P Require Import Prelude.

Module InputBuffer.

(** [#define MAX_INPUT 15] *)
Definition MAX_INPUT : nat := 15.

Record inbuf_state := mk_inbuf {
  inbuf : list Z;      (** [uint8_t inbuf[MAX_INPUT + 1]] *)
  inbufpos : nat       (** [uint8_t inbufpos] *)
}.

(** Static storage starts zeroed. *)
Definition inbuf_init : inbuf_state := mk_inbuf (replicate (MAX_INPUT + 1) 0) 0.

(** [void record_input(char digit)] *)
Definition record_input (digit : Z) (s : inbuf_state) : inbuf_state :=
  if decide (MAX_INPUT <= inbufpos s)%nat then s
  else mk_inbuf (<[inbufpos s := to_u8 digit]> (inbuf s)) (u8_incr (inbufpos s)).

(** [void backspace_input()] *)
Definition backspace_input (s : inbuf_state) : inbuf_state :=
  if decide (inbufpos s <= 0)%nat then s
  else mk_inbuf (inbuf s) (inbufpos s - 1).

(** The loop [for (int i = inbufpos - 1; i >= 0; --i)] of [pop_inbuf]: the
    argument [i] counts the iterations left, the body works on index
    [i - 1].  Every [int32_t] operation wraps. *)
Fixpoint pop_inbuf_loop (i : nat) (buf : list Z) (magnitude value : Z) : list Z * Z :=
  match i with
  | O => (buf, value)
  | S i' =>
      let value' := wrap32 (value + wrap32 (buf !!! i' * magnitude)) in
      let magnitude' := wrap32 (magnitude * 10) in
      pop_inbuf_loop i' (<[i' := 0]> buf) magnitude' value'
  end.

(** [int32_t pop_inbuf()]: the new buffer state and the returned value. *)
Definition pop_inbuf (s : inbuf_state) : inbuf_state * Z :=
  let '(buf, value) := pop_inbuf_loop (inbufpos s) (inbuf s) 1 0 in
  (mk_inbuf buf 0, value).

(** ** Invariant and abstract view *)

Definition inbuf_wf (s : inbuf_state) : Prop :=
  length (inbuf s) = S MAX_INPUT /\ (inbufpos s <= MAX_INPUT)%nat.

(** The digits typed so far, first typed first. *)
Definition inbuf_digits (s : inbuf_state) : list Z := take (inbufpos s) (inbuf s).

(** ** Lemmas *)

Lemma length_inbuf_digits s : inbuf_wf s -> length (inbuf_digits s) = inbufpos s.
Proof. intros [Hl Hp]. unfold inbuf_digits. rewrite length_take. lia. Qed.

Lemma inbuf_init_wf : inbuf_wf inbuf_init.
Proof. split; reflexivity || simpl; lia. Qed.

Lemma record_input_wf d s : inbuf_wf s -> inbuf_wf (record_input d s).
Proof.
  intros [Hl Hp]. unfold record_input. case_decide; [split; done|].
  split; simpl; [by rewrite length_insert | rewrite u8_incr_small; unfold MAX_INPUT in *; lia].
Qed.

Lemma backspace_input_wf s : inbuf_wf s -> inbuf_wf (backspace_input s).
Proof. intros [Hl Hp]. unfold backspace_input. case_decide; split; simpl; lia. Qed.

(** The effect of the loop on the buffer and its result: the first [i]
    cells are zeroed and the result is the decimal value of those cells,
    scaled by [magnitude], added to [value], modulo 2^32. *)
Lemma pop_inbuf_loop_spec i buf magnitude value :
  (i <= length buf)%nat -> int32_range value ->
  pop_inbuf_loop i buf magnitude value =
    (replicate i 0 ++ drop i buf,
     wrap32 (value + magnitude * digits_value (take i buf))).
Proof.
  revert buf magnitude value.
  induction i as [|i IH]; intros buf magnitude value Hi Hv; simpl.
  - rewrite Z.mul_0_r, Z.add_0_r, wrap32_small by done. done.
  - assert (Hlk : buf !! i = Some (buf !!! i)).
    { apply list_lookup_lookup_total_lt. lia. }
    rewrite IH by (rewrite ?length_insert; auto with rpn; lia).
    rewrite take_insert_ge, drop_insert_ge, Nat.sub_diag by lia.
    rewrite (take_S_r _ _ _ Hlk), digits_value_snoc.
    rewrite (drop_S _ _ _ Hlk). f_equal.
    + simpl. generalize (drop (S i) buf). clear. induction i; simpl; congruence.
    + wrap32_ring.
Qed.

Lemma pop_inbuf_spec s :
  inbuf_wf s ->
  pop_inbuf s = (mk_inbuf (replicate (inbufpos s) 0 ++ drop (inbufpos s) (inbuf s)) 0,
                 wrap32 (digits_value (inbuf_digits s))).
Proof.
  intros [Hl Hp]. unfold pop_inbuf, inbuf_digits.
  rewrite pop_inbuf_loop_spec by (int32_lia || lia).
  rewrite Z.mul_1_l, Z.add_0_l. done.
Qed.

Lemma pop_inbuf_wf s : inbuf_wf s -> inbuf_wf (fst (pop_inbuf s)).
Proof.
  intros Hwf. rewrite pop_inbuf_spec by done. destruct Hwf as [Hl Hp].
  split; simpl; [rewrite length_app, length_replicate, length_drop|]; lia.
Qed.


(** ** Properties *)

(** Typing a digit appends it to the typed digits while fewer than
    [MAX_INPUT] are buffered; on a full buffer the digit is dropped
    (saturating-ignore). *)
Theorem record_input_digits_aux d s :
  inbuf_wf s ->
  inbuf_digits (record_input d s) =
    if decide (inbufpos s < MAX_INPUT)%nat then inbuf_digits s ++ [to_u8 d]
    else inbuf_digits s.
Proof.
  intros [Hl Hp]. unfold record_input, inbuf_digits.
  case_decide; case_decide; try lia; [done|].
  simpl. rewrite u8_incr_small by (unfold MAX_INPUT in *; lia).
  apply take_insert_snoc. lia.
Qed.

(** C23: Typing a digit appends it to the typed digits while fewer than
    [MAX_INPUT] are buffered; on a full buffer the digit is dropped
    (saturating-ignore). *)
Theorem record_input_digits d s :
  inbuf_wf s ->
  inbuf_digits (record_input d s) =
    if decide (inbufpos s < MAX_INPUT)%nat then inbuf_digits s ++ [to_u8 d]
    else inbuf_digits s.
Proof. intros; eapply record_input_digits_aux; eassumption. Qed.

(** Backspace removes the last typed digit, and does nothing on an empty
    buffer. *)
Theorem backspace_input_digits_aux s :
  inbuf_wf s -> inbuf_digits (backspace_input s) = removelast (inbuf_digits s).
Proof.
  intros [Hl Hp]. unfold backspace_input, inbuf_digits.
  case_decide as Hz; simpl.
  - replace (inbufpos s) with 0%nat by lia. done.
  - destruct (inbufpos s) as [|p] eqn:Ep; [lia|].
    rewrite (take_S_r _ _ (inbuf s !!! p)), removelast_last.
    + f_equal. lia.
    + apply list_lookup_lookup_total_lt. lia.
Qed.

(** C24: Backspace removes the last typed digit, and does nothing on an empty
    buffer. *)
Theorem backspace_input_digits s :
  inbuf_wf s -> inbuf_digits (backspace_input s) = removelast (inbuf_digits s).
Proof. intros; eapply backspace_input_digits_aux; eassumption. Qed.

(** [pop_inbuf] returns the decimal value of the typed digits, first typed
    most significant, reduced modulo 2^32 to an [int32_t]; it empties the
    buffer and zeroes the cells it read. *)
Theorem pop_inbuf_value_aux s :
  inbuf_wf s ->
  snd (pop_inbuf s) = wrap32 (digits_value (inbuf_digits s)) /\
  inbuf_digits (fst (pop_inbuf s)) = [] /\
  take (inbufpos s) (inbuf (fst (pop_inbuf s))) = replicate (inbufpos s) 0.
Proof.
  intros Hwf. rewrite pop_inbuf_spec by done. destruct Hwf as [Hl Hp].
  split; [done|]. split; [done|]. simpl.
  rewrite take_app_length' by (rewrite length_replicate; done). done.
Qed.

(** C4: [pop_inbuf] returns the decimal value of the typed digits, first typed
    most significant, reduced modulo 2^32 to an [int32_t]; it empties the
    buffer and zeroes the cells it read. *)
Theorem pop_inbuf_value s :
  inbuf_wf s ->
  snd (pop_inbuf s) = wrap32 (digits_value (inbuf_digits s)) /\
  inbuf_digits (fst (pop_inbuf s)) = [] /\
  take (inbufpos s) (inbuf (fst (pop_inbuf s))) = replicate (inbufpos s) 0.
Proof. intros; eapply pop_inbuf_value_aux; eassumption. Qed.

(** C25: Up to nine typed digits, the value is exact: no wrap-around. *)
Theorem pop_inbuf_exact s :
  inbuf_wf s -> Forall is_digit (inbuf_digits s) -> (inbufpos s <= 9)%nat ->
  snd (pop_inbuf s) = digits_value (inbuf_digits s).
Proof.
  intros Hwf Hd Hn. rewrite pop_inbuf_spec by done. simpl.
  apply wrap32_small, digits_value_int32; [done|]. rewrite length_inbuf_digits; done.
Qed.

(** ** Witnesses *)

(** The buffer after typing 4 then 7. *)
Definition typed_47 : inbuf_state := record_input 7 (record_input 4 inbuf_init).

Lemma pop_inbuf_value_witness :
  snd (pop_inbuf typed_47) = wrap32 (digits_value (inbuf_digits typed_47)) /\
  inbuf_digits (fst (pop_inbuf typed_47)) = [] /\
  take (inbufpos typed_47) (inbuf (fst (pop_inbuf typed_47))) = replicate (inbufpos typed_47) 0.
Proof. apply pop_inbuf_value. split; [reflexivity | vm_compute; lia]. Defined.

Lemma pop_inbuf_exact_witness :
  snd (pop_inbuf typed_47) = digits_value (inbuf_digits typed_47).
Proof.
  apply pop_inbuf_exact; [split; [reflexivity | vm_compute; lia] | vm_compute; repeat constructor; discriminate | vm_compute; lia].
Defined.

Lemma record_input_digits_witness :
  inbuf_digits (record_input 9 typed_47) =
    if decide (inbufpos typed_47 < MAX_INPUT)%nat then inbuf_digits typed_47 ++ [to_u8 9]
    else inbuf_digits typed_47.
Proof. apply record_input_digits. split; [reflexivity | vm_compute; lia]. Defined.

Lemma backspace_input_digits_witness :
  inbuf_digits (backspace_input typed_47) = removelast (inbuf_digits typed_47).
Proof. apply backspace_input_digits. split; [reflexivity | vm_compute; lia]. Defined.

End InputBuffer.
