(* ===== verification/Stack.v ===== *)
(** * The value stack: [stack], [stackpos], [stack_push], [stack_pop],
      [stack_peek] (keymap.c lines 48-50 and 82-98)

    The stack is the array [int32_t stack[1024]] with the depth counter
    [uint16_t stackpos].  Its abstract view is the top-first list
    [reverse (take stackpos stack)]; the lemmas of this file prove that the
    three operations refine the bounded list stack [Spec.apush] /
    [Spec.apop] under the invariant [stack_wf]. *)

From S2P Require Import Prelude Keycodes Spec.
Import Spec.

Module Stack.

(** [#define STACKSIZE 1024] *)
Definition STACKSIZE : nat := 1024.

Record stack_state := mk_stack {
  stack : list Z;      (** [int32_t stack[1024]] *)
  stackpos : nat       (** [uint16_t stackpos] *)
}.

Definition stack_init : stack_state := mk_stack (replicate STACKSIZE 0) 0.

(** [void stack_push(int32_t value)] *)
Definition stack_push (value : Z) (s : stack_state) : stack_state :=
  if decide (STACKSIZE <= stackpos s)%nat then s
  else mk_stack (<[stackpos s := value]> (stack s)) (u16_incr (stackpos s)).

(** [int32_t stack_pop()]: the new state and the returned value. *)
Definition stack_pop (s : stack_state) : stack_state * Z :=
  if decide (stackpos s < 1)%nat then (s, 0)
  else (mk_stack (stack s) (stackpos s - 1)%nat, stack s !!! (stackpos s - 1)%nat).

(** [int32_t stack_peek()]: reads [stack[stackpos - 1]] without a guard;
    on an empty stack the index is -1 and the read is out of bounds. *)
Definition stack_peek (s : stack_state) : outcome Z :=
  match stackpos s with
  | O => Undefined (UB_out_of_bounds "stack")
  | S p =>
      match stack s !! p with
      | Some v => Ok v
      | None => Undefined (UB_out_of_bounds "stack")
      end
  end.

(** Pushing a sequence of values, first value first. *)
Definition push_all (vs : list Z) (s : stack_state) : stack_state :=
  foldl (fun s v => stack_push v s) s vs.

(** ** Invariant and abstract view *)

Definition stack_wf (s : stack_state) : Prop :=
  length (stack s) = STACKSIZE /\ (stackpos s <= STACKSIZE)%nat.

(** The stack contents, top first. *)
Definition stack_view (s : stack_state) : list Z := reverse (take (stackpos s) (stack s)).

(** ** Lemmas *)

Lemma length_stack_view s : stack_wf s -> length (stack_view s) = stackpos s.
Proof. intros [Hl Hp]. unfold stack_view. rewrite length_reverse, length_take. lia. Qed.

Lemma stack_init_wf : stack_wf stack_init.
Proof. split; [reflexivity | simpl; lia]. Qed.

Lemma stack_view_init : stack_view stack_init = [].
Proof. reflexivity. Qed.

Lemma stack_push_wf v s : stack_wf s -> stack_wf (stack_push v s).
Proof.
  intros [Hl Hp]. unfold stack_push. case_decide; [split; done|].
  split; simpl; [by rewrite length_insert | rewrite u16_incr_small; unfold STACKSIZE in *; lia].
Qed.

Lemma stack_pop_wf s : stack_wf s -> stack_wf (fst (stack_pop s)).
Proof. intros [Hl Hp]. unfold stack_pop. case_decide; split; simpl; lia. Qed.

(** [stack_push] refines the bounded push of the spec. *)
Lemma stack_push_view_aux v s :
  stack_wf s -> stack_view (stack_push v s) = apush v (stack_view s).
Proof.
  intros Hwf. pose proof (length_stack_view s Hwf) as Hlen. destruct Hwf as [Hl Hp].
  unfold stack_push, apush. rewrite Hlen. unfold CAPACITY, STACKSIZE in *.
  case_decide; case_decide; try lia; [done|].
  unfold stack_view. simpl. rewrite u16_incr_small by lia.
  rewrite take_insert_snoc by lia. apply reverse_snoc.
Qed.

(** C11: [stack_push] refines the bounded push of the spec: the view is
    the spec's push and the depth counter is the new depth, so a full
    stack is left exactly as it is. *)
Theorem stack_push_view v s :
  stack_wf s ->
  stack_view (stack_push v s) = apush v (stack_view s) /\
  stackpos (stack_push v s) = length (apush v (stack_view s)).
Proof.
  intros Hwf. split; [by apply stack_push_view_aux|].
  rewrite <- stack_push_view_aux by done.
  symmetry. apply length_stack_view, stack_push_wf, Hwf.
Qed.

(** [stack_pop] refines the pop of the spec: same new stack, same value. *)
Lemma stack_pop_view_aux s :
  stack_wf s ->
  stack_view (fst (stack_pop s)) = fst (apop (stack_view s)) /\
  snd (stack_pop s) = snd (apop (stack_view s)).
Proof.
  intros [Hl Hp]. unfold stack_pop, stack_view.
  case_decide; simpl.
  - replace (stackpos s) with 0%nat by lia. done.
  - destruct (stackpos s) as [|p] eqn:Ep; [lia|].
    rewrite take_S_total by lia. rewrite reverse_snoc. simpl.
    rewrite Nat.sub_0_r. done.
Qed.

(** C12: [stack_pop] refines the pop of the spec: same new stack, same value. *)
Theorem stack_pop_view s :
  stack_wf s ->
  stack_view (fst (stack_pop s)) = fst (apop (stack_view s)) /\
  snd (stack_pop s) = snd (apop (stack_view s)).
Proof. intros; eapply stack_pop_view_aux; eassumption. Qed.

(** [stack_peek] reads the top of the view, and is undefined exactly on an
    empty stack. *)
Lemma stack_peek_view_aux s :
  stack_wf s ->
  stack_peek s = match stack_view s with
                 | [] => Undefined (UB_out_of_bounds "stack")
                 | v :: _ => Ok v
                 end.
Proof.
  intros [Hl Hp]. unfold stack_peek, stack_view.
  destruct (stackpos s) as [|p] eqn:Ep; [done|].
  rewrite take_S_total by lia. rewrite reverse_snoc.
  rewrite list_lookup_lookup_total_lt by lia. done.
Qed.

(** C29: [stack_peek] reads the top of the view, and is undefined exactly on an
    empty stack. *)
Theorem stack_peek_view s :
  stack_wf s ->
  stack_peek s = match stack_view s with
                 | [] => Undefined (UB_out_of_bounds "stack")
                 | v :: _ => Ok v
                 end.
Proof. intros; eapply stack_peek_view_aux; eassumption. Qed.

(** The cells below the top are untouched by a push: pushing never
    corrupts existing entries. *)
Lemma stack_push_preserves v s i :
  stack_wf s -> (i < stackpos s)%nat -> stack (stack_push v s) !! i = stack s !! i.
Proof.
  intros [Hl Hp] Hi. unfold stack_push. case_decide; [done|].
  simpl. apply list_lookup_insert_ne. lia.
Qed.

Lemma push_all_wf vs s : stack_wf s -> stack_wf (push_all vs s).
Proof.
  revert s. induction vs as [|v vs IH]; intros s Hs; simpl; [done|].
  apply IH, stack_push_wf, Hs.
Qed.

(** C13: Overflow: pushing any sequence of values onto the empty stack keeps
    the first 1024 of them, in order, and drops the rest; the depth counter
    stops at 1024, so 1025 pushes leave depth 1024 with the first 1024
    values intact. *)
Theorem push_all_saturates vs :
  stack_view (push_all vs stack_init) = reverse (take STACKSIZE vs) /\
  stackpos (push_all vs stack_init) = Nat.min (length vs) STACKSIZE.
Proof.
  cut (stack_view (push_all vs stack_init) = reverse (take STACKSIZE vs)).
  { intros Hv. split; [done|].
    rewrite <- length_stack_view by (apply push_all_wf, stack_init_wf).
    rewrite Hv, length_reverse, length_take. lia. }
  induction vs as [|v vs IH] using rev_ind; [reflexivity|].
  unfold push_all in *. rewrite foldl_app. simpl.
  rewrite stack_push_view_aux by (apply push_all_wf, stack_init_wf).
  rewrite IH, take_app. unfold apush. rewrite length_reverse, length_take.
  unfold CAPACITY, STACKSIZE. case_decide.
  - rewrite take_ge by lia. replace (1024 - length vs)%nat with (S (1023 - length vs)) by lia.
    simpl. rewrite take_nil. simpl. rewrite reverse_snoc. done.
  - replace (1024 - length vs)%nat with 0%nat by lia. rewrite app_nil_r. done.
Qed.

(** ** Witnesses *)

Lemma stack_push_view_witness :
  stack_view (stack_push 8 (stack_push 5 stack_init)) = apush 8 (stack_view (stack_push 5 stack_init)) /\
  stackpos (stack_push 8 (stack_push 5 stack_init)) = length (apush 8 (stack_view (stack_push 5 stack_init))).
Proof. apply stack_push_view. apply stack_push_wf, stack_init_wf. Defined.

Lemma stack_pop_view_witness :
  stack_view (fst (stack_pop (stack_push 5 stack_init))) = fst (apop (stack_view (stack_push 5 stack_init))) /\
  snd (stack_pop (stack_push 5 stack_init)) = snd (apop (stack_view (stack_push 5 stack_init))).
Proof. apply stack_pop_view. apply stack_push_wf, stack_init_wf. Defined.

Lemma stack_peek_view_witness :
  stack_peek stack_init = match stack_view stack_init with
                          | [] => Undefined (UB_out_of_bounds "stack")
                          | v :: _ => Ok v
                          end.
Proof. apply stack_peek_view, stack_init_wf. Defined.

End Stack.
