(* ===== verification/SendInt.v ===== *)
(** * The formatter: [keyvalmap] and [send_int] (keymap.c lines 100-133)

    [send_int] fills the 12-slot buffer [outbuf] with [value % 10] and
    [value /= 10] (C's truncating remainder and quotient, [Z.rem] and
    [Z.quot]; the remainder is stored into a [uint16_t], so a negative
    remainder becomes a large unsigned number), then taps
    [keyvalmap[outbuf[i]]] from slot 11 down to slot 0, skipping leading
    zero slots except slot 0.  The static [outbuf] is cleared by the first
    loop before it is read, so it is local state here.  Reading
    [keyvalmap] at an index of 10 or more is undefined behaviour and is the
    [Undefined] outcome. *)

From S2P Require Import Prelude Keycodes.
Import Keycodes.
Local Open Scope rpn_scope.

Module SendInt.

#[export] Instance basic_keycode_inhabited : Inhabited basic_keycode := populate KC_0.

(** [static uint16_t keyvalmap[10]] *)
Definition keyvalmap : list basic_keycode :=
  [KC_0; KC_1; KC_2; KC_3; KC_4; KC_5; KC_6; KC_7; KC_8; KC_9].

(** The read [keyvalmap[d]] of an unsigned index. *)
Definition keyval (d : Z) : outcome basic_keycode :=
  match keyvalmap !! Z.to_nat d with
  | Some k => if decide (0 <= d) then Ok k else Undefined (UB_out_of_bounds "keyvalmap")
  | None => Undefined (UB_out_of_bounds "keyvalmap")
  end.

(** The loop [for (int i = 0; i < 12; ++i) { outbuf[i] = value % 10;
    value /= 10; }]: [n] iterations left, [i] the current slot. *)
Fixpoint send_int_fill (n i : nat) (outbuf : list Z) (value : Z) : list Z :=
  match n with
  | O => outbuf
  | S n' => send_int_fill n' (S i) (<[i := to_u16 (Z.rem value 10)]> outbuf) (Z.quot value 10)
  end.

(** The loop [for (int i = 11; i >= 0; --i)] with the flag [start]: [k]
    iterations left, the body works on slot [k - 1]. *)
Fixpoint send_int_emit (k : nat) (start : bool) (outbuf : list Z) : outcome (list basic_keycode) :=
  match k with
  | O => Ok []
  | S i =>
      let tap start' :=
        kc <- keyval (outbuf !!! i) ;;
        rest <- send_int_emit i start' outbuf ;;
        Ok (kc :: rest) in
      if start && bool_decide (0 < i)%nat then
        if decide (outbuf !!! i = 0) then send_int_emit i start outbuf
        else tap false
      else tap start
  end.

(** [void send_int(int32_t value)]: the keystrokes it taps. *)
Definition send_int (value : Z) : outcome (list basic_keycode) :=
  send_int_emit 12 true (send_int_fill 12 0 (replicate 12 0) value).

(** ** Reference definitions *)

(** The key that types a decimal digit: [KC_0] for 0, ..., [KC_9] for 9
    (only applied to digits). *)
Definition digit_keycode (d : Z) : basic_keycode :=
  match d with
  | 0 => KC_0 | 1 => KC_1 | 2 => KC_2 | 3 => KC_3 | 4 => KC_4
  | 5 => KC_5 | 6 => KC_6 | 7 => KC_7 | 8 => KC_8 | _ => KC_9
  end.

(** The [n] slots the fill loop writes, least significant first. *)
Fixpoint le_digits (n : nat) (v : Z) : list Z :=
  match n with
  | O => []
  | S n' => to_u16 (Z.rem v 10) :: le_digits n' (Z.quot v 10)
  end.

(** Drop leading zeros, keeping at least the last digit. *)
Fixpoint strip_zeros (ds : list Z) : list Z :=
  match ds with
  | [] => []
  | [d] => [d]
  | d :: ds' => if decide (d = 0) then strip_zeros ds' else ds
  end.

(** A canonical decimal representation: non-empty, and no leading zero
    unless it is the single digit 0. *)
Definition canonical (ds : list Z) : Prop :=
  ds <> [] /\ (head ds = Some 0 -> ds = [0]).

(** The decimal digits of a non-negative number, most significant first,
    by repeated division: the textbook conversion the spec's
    [format_integer] describes.  [n] bounds the number of digits; ten are
    enough for an [int32_t]. *)
Fixpoint decimal_fuel (n : nat) (v : Z) : list Z :=
  match n with
  | O => []
  | S n' => if decide (v < 10) then [v] else decimal_fuel n' (v / 10) ++ [v mod 10]
  end.

Definition decimal (v : Z) : list Z := decimal_fuel 10 v.

(** ** Lemmas *)

Lemma keyval_digit d : is_digit d -> keyval d = Ok (digit_keycode d).
Proof.
  intros Hd. unfold is_digit in Hd.
  assert (d = 0 \/ d = 1 \/ d = 2 \/ d = 3 \/ d = 4 \/ d = 5 \/ d = 6 \/ d = 7 \/ d = 8 \/ d = 9)
    as Hcases by lia.
  destruct_or! Hcases; subst d; reflexivity.
Qed.

Lemma keyval_large d : 10 <= d -> keyval d = Undefined (UB_out_of_bounds "keyvalmap").
Proof.
  intros Hd. unfold keyval.
  rewrite (proj2 (lookup_ge_None _ _)); [done | simpl; lia].
Qed.

(** The fill loop writes [le_digits] into the slots it visits. *)
Lemma send_int_fill_spec n i outbuf value :
  (i + n <= length outbuf)%nat ->
  send_int_fill n i outbuf value = take i outbuf ++ le_digits n value ++ drop (i + n) outbuf.
Proof.
  revert i outbuf value. induction n as [|n IH]; intros i outbuf value Hn; simpl.
  - rewrite Nat.add_0_r, take_drop. done.
  - rewrite IH by (rewrite length_insert; lia).
    rewrite take_insert_snoc, drop_insert_lt by lia.
    rewrite <- app_assoc, Nat.add_succ_r. done.
Qed.

Lemma send_int_fill_init value :
  send_int_fill 12 0 (replicate 12 0) value = le_digits 12 value.
Proof. rewrite send_int_fill_spec by done. simpl. rewrite ?app_nil_r. done. Qed.

Lemma length_le_digits n v : length (le_digits n v) = n.
Proof. revert v. induction n; intros v; simpl; auto. Qed.

(** For [0 <= v < 10^n] the slots are the decimal digits of [v]. *)
Lemma le_digits_nonneg n v :
  0 <= v < 10 ^ Z.of_nat n ->
  Forall is_digit (le_digits n v) /\ digits_value (reverse (le_digits n v)) = v.
Proof.
  revert v. induction n as [|n IH]; intros v Hv; simpl le_digits.
  - simpl in Hv. split; [constructor | cbn; lia].
  - rewrite pow10_succ in Hv.
    assert (Hr : to_u16 (Z.rem v 10) = v mod 10).
    { unfold to_u16. rewrite Z.rem_mod_nonneg by lia. apply Z.mod_small.
      pose proof (Z.mod_pos_bound v 10). lia. }
    destruct (IH (Z.quot v 10)) as [Hd Hval].
    { rewrite Z.quot_div_nonneg by lia. split; [apply Z.div_pos|apply Z.div_lt_upper_bound]; lia. }
    rewrite Hr, reverse_cons, digits_value_snoc, Hval. split.
    + constructor; [unfold is_digit; pose proof (Z.mod_pos_bound v 10)|]; auto; lia.
    + rewrite Z.quot_div_nonneg by lia. pose proof (Z.div_mod v 10). lia.
Qed.

(** For [-10^n < v <= 0] every slot is 0 or a wrapped negative remainder,
    at least 10, and some slot is non-zero unless [v = 0]. *)
Lemma le_digits_neg n v :
  - 10 ^ Z.of_nat n < v <= 0 ->
  Forall (fun d => d = 0 \/ 10 <= d) (le_digits n v) /\
  (v <> 0 -> Exists (fun d => d <> 0) (le_digits n v)).
Proof.
  revert v. induction n as [|n IH]; intros v Hv; simpl le_digits.
  - simpl in Hv. split; [constructor | lia].
  - rewrite pow10_succ in Hv.
    destruct (IH (Z.quot v 10)) as [Hall Hex].
    { pose proof (Z.pow_pos_nonneg 10 (Z.of_nat n)).
      Z.quot_rem_to_equations. lia. }
    assert (Hr : - 9 <= Z.rem v 10 <= 0) by (Z.quot_rem_to_equations; lia).
    assert (Hu : to_u16 (Z.rem v 10) = 0 /\ Z.rem v 10 = 0 \/ 10 <= to_u16 (Z.rem v 10)).
    { unfold to_u16. Z.div_mod_to_equations. lia. }
    split; [constructor; [lia | done]|].
    intros Hv0. destruct Hu as [[Hu Hr0] | Hu].
    + apply Exists_cons_tl, Hex. Z.quot_rem_to_equations. lia.
    + apply Exists_cons_hd. lia.
Qed.

Lemma strip_zeros_cons d ds :
  ds <> [] -> strip_zeros (d :: ds) = if decide (d = 0) then strip_zeros ds else d :: ds.
Proof. destruct ds; [done | reflexivity]. Qed.

Lemma strip_zeros_spec ds :
  ds <> [] -> Forall is_digit ds ->
  Forall is_digit (strip_zeros ds) /\ canonical (strip_zeros ds) /\
  digits_value (strip_zeros ds) = digits_value ds.
Proof.
  induction ds as [|d ds IH]; intros Hne Hall; [done|].
  apply Forall_cons in Hall as [Hd Hds].
  destruct (decide (ds = [])) as [->|Hne'].
  - split; [by constructor|]. split; [split; [done|intros H; by injection H as ->]|done].
  - rewrite strip_zeros_cons by done. case_decide as Hz.
    + subst d. destruct (IH Hne' Hds) as (? & ? & ->). done.
    + split; [by constructor|]. split; [split; [done | intros H; by injection H]|done].
Qed.

(** The emission loop taps the slots from the highest down, dropping
    leading zero slots while [start] is set, except the last one. *)
Lemma send_int_emit_digits k outbuf :
  (k <= length outbuf)%nat -> Forall is_digit (take k outbuf) ->
  send_int_emit k false outbuf = Ok (map digit_keycode (reverse (take k outbuf))) /\
  send_int_emit k true outbuf = Ok (map digit_keycode (strip_zeros (reverse (take k outbuf)))).
Proof.
  induction k as [|k IH]; intros Hk Hall; [done|].
  rewrite take_S_total in * by lia. rewrite reverse_snoc.
  apply Forall_app in Hall as [Hall Hd]. apply Forall_inv in Hd.
  destruct (IH ltac:(lia) Hall) as [Hf Ht].
  cbn [send_int_emit andb]. rewrite keyval_digit by done. cbn [obind]. rewrite Hf, Ht.
  split; [done|].
  destruct k as [|k]; [reflexivity|].
  rewrite strip_zeros_cons by (rewrite <- length_zero_iff_nil, length_reverse, length_take; lia).
  rewrite bool_decide_true by lia. case_decide; done.
Qed.

(** The emission loop reads [keyvalmap] out of bounds as soon as it
    reaches a non-zero slot that is not a digit. *)
Lemma send_int_emit_oob k start outbuf :
  (k <= length outbuf)%nat ->
  Forall (fun d => d = 0 \/ 10 <= d) (take k outbuf) ->
  Exists (fun d => d <> 0) (take k outbuf) ->
  send_int_emit k start outbuf = Undefined (UB_out_of_bounds "keyvalmap").
Proof.
  revert start. induction k as [|k IH]; intros start Hk Hall Hex; [inversion Hex|].
  rewrite take_S_total in * by lia.
  apply Forall_app in Hall as [Hall Hd]. apply Forall_inv in Hd.
  apply Exists_app in Hex.
  simpl send_int_emit. destruct Hd as [Hd | Hd].
  - assert (Hex' : Exists (fun d => d <> 0) (take k outbuf)).
    { destruct Hex as [Hex | Hex]; [done|]. apply Exists_cons in Hex as [? | Hex]; [done|inversion Hex]. }
    rewrite Hd, keyval_digit by (unfold is_digit; lia). cbn [obind].
    rewrite !IH by (done || lia).
    destruct (start && bool_decide _); [destruct (decide _)|]; done.
  - rewrite keyval_large by done. cbn [obind].
    destruct (start && bool_decide _); [rewrite decide_False by lia|]; done.
Qed.

(** A canonical representation of two or more digits starts with a
    non-zero digit. *)
Lemma canonical_lower ds :
  Forall is_digit ds -> canonical ds -> (2 <= length ds)%nat ->
  10 ^ Z.of_nat (length ds - 1) <= digits_value ds.
Proof.
  intros Hd [_ Hc] Hl. destruct ds as [|d ds]; [simpl in Hl; lia|].
  apply Forall_cons in Hd as [Hd Hds]. unfold is_digit in Hd.
  assert (d <> 0) by (intros ->; specialize (Hc eq_refl); simplify_eq/=; lia).
  rewrite digits_value_cons. pose proof (digits_value_bound _ Hds).
  replace (length (d :: ds) - 1)%nat with (length ds) by (simpl; lia). nia.
Qed.

Lemma canonical_length ds es :
  Forall is_digit ds -> Forall is_digit es -> canonical ds -> canonical es ->
  digits_value ds = digits_value es -> (length ds <= length es)%nat.
Proof.
  intros Hd He Hcd Hce Hv. destruct (decide (length ds <= length es)%nat) as [|Hlt]; [done|].
  exfalso. pose proof (canonical_lower ds Hd Hcd) as Hlow.
  destruct Hce as [Hne _]. destruct es as [|e es]; [done|]. simpl in Hlt.
  pose proof (digits_value_bound _ He).
  assert (10 ^ Z.of_nat (length (e :: es)) <= 10 ^ Z.of_nat (length ds - 1))
    by (apply Z.pow_le_mono_r; simpl; lia).
  specialize (Hlow ltac:(lia)). lia.
Qed.

(** The canonical decimal representation of a number is unique. *)
Lemma canonical_unique ds es :
  Forall is_digit ds -> Forall is_digit es -> canonical ds -> canonical es ->
  digits_value ds = digits_value es -> ds = es.
Proof.
  intros Hd He Hcd Hce Hv. apply digits_eq_length; [done..| |done].
  apply Nat.le_antisymm; eapply canonical_length; eauto.
Qed.

Lemma decimal_fuel_spec n v :
  0 <= v < 10 ^ Z.of_nat n -> (1 <= n)%nat ->
  Forall is_digit (decimal_fuel n v) /\ canonical (decimal_fuel n v) /\
  digits_value (decimal_fuel n v) = v.
Proof.
  revert v. induction n as [|n IH]; intros v Hv Hn; [lia|]. cbn [decimal_fuel].
  case_decide as Hlt.
  - split_and!; [constructor; [unfold is_digit; lia | constructor] | split; [done | by intros [= ->]] | done].
  - rewrite pow10_succ in Hv. destruct n as [|n]; [simpl in Hv; lia|].
    assert (Hq : 0 <= v / 10 < 10 ^ Z.of_nat (S n)).
    { split; [apply Z.div_pos; lia|]. apply Z.div_lt_upper_bound; lia. }
    destruct (IH (v / 10) Hq ltac:(lia)) as (Hd & [Hne Hc] & Hval).
    split_and!.
    + apply Forall_app. split; [done|]. constructor; [apply Z.mod_pos_bound; lia | constructor].
    + split; [destruct (decimal_fuel (S n) (v / 10)); done|].
      destruct (decimal_fuel (S n) (v / 10)) as [|d ds] eqn:E; [done|].
      simpl. intros [= ->]. rewrite <- E in *. specialize (Hc ltac:(rewrite E; done)).
      rewrite Hc in Hval. assert (1 <= v / 10) by (apply Z.div_le_lower_bound; lia).
      unfold digits_value in Hval. simpl in Hval. lia.
    + rewrite digits_value_snoc, Hval. pose proof (Z.div_mod v 10). lia.
Qed.

Lemma decimal_spec v :
  0 <= v <= INT32_MAX ->
  Forall is_digit (decimal v) /\ canonical (decimal v) /\ digits_value (decimal v) = v.
Proof. intros Hv. apply decimal_fuel_spec; [unfold INT32_MAX in *; simpl; lia | lia]. Qed.

(** ** Properties *)

(** [send_int] of a non-negative [int32_t] taps the keys of its canonical
    decimal representation: digits only, no leading zero (a single 0 for
    zero), and the digits denote the value. *)
Theorem send_int_nonneg_aux v :
  0 <= v <= INT32_MAX ->
  exists ds, send_int v = Ok (map digit_keycode ds) /\
             Forall is_digit ds /\ canonical ds /\ digits_value ds = v.
Proof.
  intros Hv. unfold send_int. rewrite send_int_fill_init.
  destruct (le_digits_nonneg 12 v) as [Hd Hval]; [unfold INT32_MAX in Hv; simpl; lia|].
  pose proof (length_le_digits 12 v) as Hlen.
  destruct (send_int_emit_digits 12 (le_digits 12 v)) as [_ Ht];
    [lia | rewrite take_ge by lia; done|].
  rewrite take_ge in Ht by lia.
  destruct (strip_zeros_spec (reverse (le_digits 12 v))) as (Hd' & Hc & Hv').
  - rewrite <- length_zero_iff_nil, length_reverse. lia.
  - by apply Forall_reverse.
  - exists (strip_zeros (reverse (le_digits 12 v))). rewrite Hv', Hval. done.
Qed.

(** C6: [send_int] of a non-negative [int32_t] taps the keys of its canonical
    decimal representation: digits only, no leading zero (a single 0 for
    zero), and the digits denote the value. *)
Theorem send_int_nonneg v :
  0 <= v <= INT32_MAX ->
  exists ds, send_int v = Ok (map digit_keycode ds) /\
             Forall is_digit ds /\ canonical ds /\ digits_value ds = v.
Proof. intros; eapply send_int_nonneg_aux; eassumption. Qed.

(** [send_int] of a negative [int32_t] reads [keyvalmap] out of bounds: C's
    [value % 10] is negative, and its conversion to [uint16_t] is a large
    index.  No minus sign is ever sent. *)
Theorem send_int_negative_aux v :
  INT32_MIN <= v < 0 -> send_int v = Undefined (UB_out_of_bounds "keyvalmap").
Proof.
  intros Hv. unfold send_int. rewrite send_int_fill_init.
  destruct (le_digits_neg 12 v) as [Hall Hex]; [unfold INT32_MIN in Hv; simpl; lia|].
  pose proof (length_le_digits 12 v) as Hlen.
  apply send_int_emit_oob; [lia | rewrite take_ge by lia; done |].
  rewrite take_ge by lia. apply Hex. lia.
Qed.

(** C8: [send_int] of a negative [int32_t] reads [keyvalmap] out of bounds: C's
    [value % 10] is negative, and its conversion to [uint16_t] is a large
    index.  No minus sign is ever sent. *)
Theorem send_int_negative v :
  INT32_MIN <= v < 0 -> send_int v = Undefined (UB_out_of_bounds "keyvalmap").
Proof. intros; eapply send_int_negative_aux; eassumption. Qed.

(** [send_int] of a non-negative [int32_t] taps exactly the keys of
    [decimal v], the digits the textbook conversion by repeated division
    produces. *)
Theorem send_int_decimal_aux v :
  0 <= v <= INT32_MAX -> send_int v = Ok (map digit_keycode (decimal v)).
Proof.
  intros Hv. destruct (send_int_nonneg_aux v Hv) as (ds & E & Hd & Hc & Hval).
  destruct (decimal_spec v Hv) as (Hd' & Hc' & Hval').
  rewrite E. do 2 f_equal. apply canonical_unique; congruence.
Qed.

(** C7: [send_int] of a non-negative [int32_t] taps exactly the keys of
    [decimal v], the digits the textbook conversion by repeated division
    produces. *)
Theorem send_int_decimal v :
  0 <= v <= INT32_MAX -> send_int v = Ok (map digit_keycode (decimal v)).
Proof. intros; eapply send_int_decimal_aux; eassumption. Qed.

(** ** Witnesses *)

Lemma send_int_nonneg_witness :
  exists ds, send_int 2147483647 = Ok (map digit_keycode ds) /\
             Forall is_digit ds /\ canonical ds /\ digits_value ds = 2147483647.
Proof. apply send_int_nonneg. unfold INT32_MAX. lia. Defined.

Lemma send_int_negative_witness : send_int (-123) = Undefined (UB_out_of_bounds "keyvalmap").
Proof. apply send_int_negative. unfold INT32_MIN. lia. Defined.

Lemma send_int_decimal_witness : send_int 120 = Ok (map digit_keycode (decimal 120)).
Proof. apply send_int_decimal. unfold INT32_MAX. lia. Defined.

End SendInt.
