(* ===== verification/Calc.v ===== *)
(** * The key dispatcher: [input_push], [DO_NUMBER] and
      [process_record_user] (keymap.c lines 135-289)

    The global state of the keymap is the record [calc_state]: the stack,
    the input buffer, the mode [state] and the one-character string
    [dirty_hack] that echoes digits.  Each [case] of the [switch (kc)] is
    one handler returning the new state and the output events, or an
    [Undefined] outcome where the C code has undefined behaviour.

    In [RPN_ADD] and [RPN_MUL] the two [stack_pop()] calls are operands of
    one [+] / [*], whose evaluation order C leaves unspecified; the model
    evaluates them left to right, and both operators commute, so the
    result does not depend on the order. *)

From S2P Require Import Prelude Keycodes Spec InputBuffer Stack SendInt.
Import Keycodes Spec InputBuffer Stack SendInt.
Local Open Scope rpn_scope.

Module Calc.

(** What the keymap asks the host to type. *)
Inductive out_event :=
| SendString (s : string)       (** [SEND_STRING] / [send_string] *)
| TapCode (k : basic_keycode).  (** [tap_code] *)

Record calc_state := mk_calc {
  cs_stack : stack_state;   (** [stack], [stackpos] *)
  cs_inbuf : inbuf_state;   (** [inbuf], [inbufpos] *)
  cs_mode : rpn_state;      (** [static int state] *)
  cs_dirty_hack : Z         (** [dirty_hack[0]]; [dirty_hack[1]] stays 0 *)
}.

Definition calc_init : calc_state := mk_calc stack_init inbuf_init S_NUMBER 0.

Definition set_stack (st : calc_state) (s : stack_state) : calc_state :=
  mk_calc s (cs_inbuf st) (cs_mode st) (cs_dirty_hack st).
Definition set_inbuf (st : calc_state) (b : inbuf_state) : calc_state :=
  mk_calc (cs_stack st) b (cs_mode st) (cs_dirty_hack st).

(** A string literal followed by ["\n"]. *)
Definition line (s : string) : string := s +:+ String (Ascii.ascii_of_nat 10) EmptyString.

(** [stack_push] and [stack_pop] on the global state. *)
Definition c_push (v : Z) (st : calc_state) : calc_state := set_stack st (stack_push v (cs_stack st)).
Definition c_pop (st : calc_state) : calc_state * Z :=
  let '(s, v) := stack_pop (cs_stack st) in (set_stack st s, v).

(** [send_int(v)] as output events. *)
Definition send_int_events (v : Z) : outcome (list out_event) :=
  ks <- send_int v ;; Ok (map TapCode ks).

(** [void input_push()] *)
Definition input_push (st : calc_state) : calc_state * list out_event :=
  if decide (0 < inbufpos (cs_inbuf st))%nat then
    let '(b, v) := pop_inbuf (cs_inbuf st) in
    (c_push v (set_inbuf st b), [SendString (line "<")])
  else (st, []).

(** [DO_NUMBER(n)]: [dirty_hack[0] = '0' + n; send_string(dirty_hack);
    record_input(n);] *)
Definition rpn_digit (n : Z) (st : calc_state) : calc_state * list out_event :=
  let c := 48 + n in
  (mk_calc (cs_stack st) (record_input n (cs_inbuf st)) (cs_mode st) c,
   [SendString (String (Ascii.ascii_of_nat (Z.to_nat c)) EmptyString)]).

(** [case RPN_BSPC] *)
Definition rpn_bspc (st : calc_state) : calc_state * list out_event :=
  (set_inbuf st (backspace_input (cs_inbuf st)), [TapCode KC_BSPC]).

(** [case RPN_POP] *)
Definition rpn_pop (st : calc_state) : outcome (calc_state * list out_event) :=
  let '(st1, o1) := input_push st in
  if decide (0 < stackpos (cs_stack st1))%nat then
    let '(st2, v) := c_pop st1 in
    ks <- send_int_events v ;;
    Ok (st2, o1 ++ [SendString "> "] ++ ks ++ [SendString (line "")])
  else Ok (st1, o1 ++ [SendString (line "# empty")]).

(** [case RPN_PEEK] *)
Definition rpn_peek (st : calc_state) : outcome (calc_state * list out_event) :=
  let '(st1, o1) := input_push st in
  if decide (0 < stackpos (cs_stack st1))%nat then
    v <- stack_peek (cs_stack st1) ;;
    ks <- send_int_events v ;;
    Ok (st1, o1 ++ [SendString "# "] ++ ks ++ [SendString (line "")])
  else Ok (st1, o1 ++ [SendString (line "# empty")]).

(** [case RPN_ADD]: [stack_push(stack_pop() + stack_pop())] *)
Definition rpn_add (st : calc_state) : outcome (calc_state * list out_event) :=
  let '(st1, o1) := input_push st in
  if decide (1 < stackpos (cs_stack st1))%nat then
    let '(st2, a) := c_pop st1 in
    let '(st3, b) := c_pop st2 in
    Ok (c_push (add32 a b) st3, o1 ++ [SendString (line "+")])
  else Ok (st1, o1 ++ [SendString (line "# can't +")]).

(** [case RPN_SUB]: [v = stack_pop(); stack_push(stack_pop() - v)] *)
Definition rpn_sub (st : calc_state) : outcome (calc_state * list out_event) :=
  let '(st1, o1) := input_push st in
  if decide (1 < stackpos (cs_stack st1))%nat then
    let '(st2, v) := c_pop st1 in
    let '(st3, w) := c_pop st2 in
    Ok (c_push (sub32 w v) st3, o1 ++ [SendString (line "-")])
  else Ok (st1, o1 ++ [SendString (line "# can't -")]).

(** [case RPN_NEG]: [stack_push(-stack_pop())] *)
Definition rpn_neg (st : calc_state) : outcome (calc_state * list out_event) :=
  let '(st1, o1) := input_push st in
  if decide (0 < stackpos (cs_stack st1))%nat then
    let '(st2, a) := c_pop st1 in
    Ok (c_push (neg32 a) st2, o1 ++ [SendString (line "-.")])
  else Ok (st1, o1 ++ [SendString (line "# can't negate")]).

(** [case RPN_MUL]: [stack_push(stack_pop() * stack_pop())] *)
Definition rpn_mul (st : calc_state) : outcome (calc_state * list out_event) :=
  let '(st1, o1) := input_push st in
  if decide (1 < stackpos (cs_stack st1))%nat then
    let '(st2, a) := c_pop st1 in
    let '(st3, b) := c_pop st2 in
    Ok (c_push (mul32 a b) st3, o1 ++ [SendString (line "*")])
  else Ok (st1, o1 ++ [SendString (line "# can't *")]).

(** [case RPN_DIV]: [v = stack_pop(); stack_push(stack_pop() / v)], with
    no test of [v]: division by zero is undefined. *)
Definition rpn_div (st : calc_state) : outcome (calc_state * list out_event) :=
  let '(st1, o1) := input_push st in
  if decide (1 < stackpos (cs_stack st1))%nat then
    let '(st2, v) := c_pop st1 in
    let '(st3, w) := c_pop st2 in
    if decide (v = 0) then Undefined UB_division_by_zero
    else Ok (c_push (wrap32 (Z.quot w v)) st3, o1 ++ [SendString (line "/")])
  else Ok (st1, o1 ++ [SendString (line "# can't /")]).

(** [case RPN_DUP] *)
Definition rpn_dup (st : calc_state) : outcome (calc_state * list out_event) :=
  let '(st1, o1) := input_push st in
  if decide (0 < stackpos (cs_stack st1))%nat then
    let '(st2, v) := c_pop st1 in
    Ok (c_push v (c_push v st2), o1 ++ [SendString (line "dup")])
  else Ok (st1, o1 ++ [SendString (line "# can't dup")]).

(** [case RPN_SWAP]; its failure message is the one of [RPN_DUP]. *)
Definition rpn_swap (st : calc_state) : outcome (calc_state * list out_event) :=
  let '(st1, o1) := input_push st in
  if decide (1 < stackpos (cs_stack st1))%nat then
    let '(st2, v1) := c_pop st1 in
    let '(st3, v2) := c_pop st2 in
    Ok (c_push v2 (c_push v1 st3), o1 ++ [SendString (line "swap")])
  else Ok (st1, o1 ++ [SendString (line "# can't dup")]).

(** The loop [for (int i = stackpos - 1; i >= 0; --i)] of [RPN_LIST]: [i]
    iterations left, the body prints [stack[i - 1]]. *)
Fixpoint rpn_list_loop (i : nat) (arr : list Z) : outcome (list out_event) :=
  match i with
  | O => Ok []
  | S i' =>
      ks <- send_int_events (arr !!! i') ;;
      rest <- rpn_list_loop i' arr ;;
      Ok ([SendString "# "] ++ ks ++ [SendString (line "")] ++ rest)
  end.

(** [case RPN_LIST] *)
Definition rpn_list (st : calc_state) : outcome (calc_state * list out_event) :=
  let '(st1, o1) := input_push st in
  evs <- rpn_list_loop (stackpos (cs_stack st1)) (stack (cs_stack st1)) ;;
  Ok (st1, o1 ++ [SendString (line "#   begin stack dump")] ++ evs
              ++ [SendString (line "#   end stack dump")]).

(** The inner [switch (kc)] of the [S_NUMBER] state. *)
Definition process_key (c : custom_keycodes) (st : calc_state)
    : outcome (calc_state * list out_event) :=
  match c with
  | RPN_0 => Ok (rpn_digit 0 st) | RPN_1 => Ok (rpn_digit 1 st)
  | RPN_2 => Ok (rpn_digit 2 st) | RPN_3 => Ok (rpn_digit 3 st)
  | RPN_4 => Ok (rpn_digit 4 st) | RPN_5 => Ok (rpn_digit 5 st)
  | RPN_6 => Ok (rpn_digit 6 st) | RPN_7 => Ok (rpn_digit 7 st)
  | RPN_8 => Ok (rpn_digit 8 st) | RPN_9 => Ok (rpn_digit 9 st)
  | RPN_BSPC => Ok (rpn_bspc st)
  | RPN_ENTER => Ok (input_push st)
  | RPN_POP => rpn_pop st
  | RPN_PEEK => rpn_peek st
  | RPN_ADD => rpn_add st
  | RPN_SUB => rpn_sub st
  | RPN_NEG => rpn_neg st
  | RPN_MUL => rpn_mul st
  | RPN_DIV => rpn_div st
  | RPN_DUP => rpn_dup st
  | RPN_SWAP => rpn_swap st
  | RPN_LIST => rpn_list st
  end.

(** [bool process_record_user(uint16_t kc, keyrecord_t *record)]: the new
    state, the output and the returned flag. *)
Definition process_record_user (SAFE_RANGE kc : Z) (pressed : bool) (st : calc_state)
    : outcome (calc_state * list out_event * bool) :=
  if pressed then
    match cs_mode st with
    | S_NUMBER =>
        match decode_keycode SAFE_RANGE kc with
        | Some c => r <- process_key c st ;; Ok (r.1, r.2, true)
        | None => Ok (st, [], true)
        end
    end
  else Ok (st, [], true).

(** ** Invariant and abstract view *)

(** The array lengths and counters are in bounds, every stack cell is an
    [int32_t] and the typed characters are decimal digits. *)
Definition calc_wf (st : calc_state) : Prop :=
  stack_wf (cs_stack st) /\ Forall int32_range (stack (cs_stack st)) /\
  inbuf_wf (cs_inbuf st) /\ Forall is_digit (inbuf_digits (cs_inbuf st)).

(** The abstract state of the spec that a concrete state represents. *)
Definition calc_view (st : calc_state) : astate :=
  mk_astate (inbuf_digits (cs_inbuf st)) (stack_view (cs_stack st)).

(** When the handler of [c] has undefined behaviour, on the abstract
    state [a]: a division whose divisor (after the commit) is 0, or the
    printing of a negative value. *)
Definition key_undefined (c : custom_keycodes) (a : astate) : Prop :=
  let st := a_stack (a_commit a) in
  match c with
  | RPN_DIV => match st with b :: _ :: _ => b = 0 | _ => False end
  | RPN_POP | RPN_PEEK => match st with v :: _ => v < 0 | [] => False end
  | RPN_LIST => Exists (fun v => v < 0) st
  | _ => False
  end.

(** What a handler's outcome must satisfy: when it returns, the invariant
    holds, the abstract state moved as the spec says and the handler was
    not in an undefined case; otherwise it was. *)
Definition key_correct (c : custom_keycodes) (st : calc_state)
    (r : outcome (calc_state * list out_event)) : Prop :=
  match r with
  | Ok (st', _) =>
      calc_wf st' /\ calc_view st' = spec_key c (calc_view st) /\
      ~ key_undefined c (calc_view st)
  | Undefined _ => key_undefined c (calc_view st)
  end.

(** ** Lemmas *)

Lemma calc_init_wf : calc_wf calc_init.
Proof.
  split; [apply stack_init_wf|]. split; [apply Forall_replicate; int32_lia|].
  split; [apply inbuf_init_wf | constructor].
Qed.

Lemma calc_depth st : calc_wf st -> stackpos (cs_stack st) = length (a_stack (calc_view st)).
Proof. intros (Hs & _). simpl. rewrite length_stack_view by done. done. Qed.

Lemma calc_depth_bound st : calc_wf st -> (length (a_stack (calc_view st)) <= CAPACITY)%nat.
Proof. intros Hwf. rewrite <- calc_depth by done. apply Hwf. Qed.

Lemma calc_input_length st : calc_wf st -> inbufpos (cs_inbuf st) = length (a_input (calc_view st)).
Proof. intros (_ & _ & Hb & _). simpl. rewrite length_inbuf_digits by done. done. Qed.

Lemma view_int32 st : calc_wf st -> Forall int32_range (a_stack (calc_view st)).
Proof. intros (_ & Hi & _). simpl. unfold stack_view. by apply Forall_reverse, Forall_take. Qed.

Lemma apush_lt v l : (length l < CAPACITY)%nat -> apush v l = v :: l.
Proof. intros H. unfold apush. by rewrite decide_True. Qed.

Lemma a_set_stack_id a : a_set_stack a (a_stack a) = a.
Proof. by destruct a. Qed.

Lemma c_push_spec v st :
  calc_wf st -> int32_range v ->
  calc_wf (c_push v st) /\
  calc_view (c_push v st) = a_set_stack (calc_view st) (apush v (a_stack (calc_view st))).
Proof.
  intros (Hs & Hi & Hb & Hd) Hv. split.
  - split; [by apply stack_push_wf|]. split; [|done].
    simpl. unfold stack_push. case_decide; [done|]. by apply Forall_insert.
  - unfold calc_view, a_set_stack. simpl. rewrite stack_push_view_aux by done. done.
Qed.

Lemma c_pop_spec st :
  calc_wf st ->
  exists st', c_pop st = (st', hd 0 (a_stack (calc_view st))) /\ calc_wf st' /\
              calc_view st' = a_set_stack (calc_view st) (tail (a_stack (calc_view st))).
Proof.
  intros (Hs & Hi & Hb & Hd). unfold c_pop.
  destruct (stack_pop_view_aux _ Hs) as [Hv Hx].
  pose proof (stack_pop_wf _ Hs) as Hs'.
  destruct (stack_pop (cs_stack st)) as [s' x] eqn:E. simpl in *.
  exists (set_stack st s'). split; [|split].
  - rewrite Hx. by destruct (stack_view (cs_stack st)).
  - split; [done|]. split; [|done].
    simpl. assert (stack s' = stack (cs_stack st)) as ->; [|done].
    unfold stack_pop in E. case_decide; injection E as <- _; done.
  - unfold calc_view, a_set_stack. simpl. rewrite Hv. by destruct (stack_view (cs_stack st)).
Qed.

Lemma input_push_spec st :
  calc_wf st ->
  calc_wf (input_push st).1 /\ calc_view (input_push st).1 = a_commit (calc_view st) /\
  (input_push st).2 = (if decide (a_input (calc_view st) = []) then []
                       else [SendString (line "<")]).
Proof.
  intros Hwf. pose proof (calc_input_length st Hwf) as Hlen.
  unfold input_push. rewrite Hlen.
  destruct (a_input (calc_view st)) as [|d ds] eqn:E.
  - simpl. unfold a_commit. rewrite E. done.
  - rewrite decide_True by (simpl; lia).
    destruct Hwf as (Hs & Hi & Hb & Hd).
    destruct (pop_inbuf_value_aux _ Hb) as (Hval & Hemp & _).
    pose proof (pop_inbuf_wf _ Hb) as Hb'.
    destruct (pop_inbuf (cs_inbuf st)) as [b v] eqn:Ep. simpl in *.
    destruct (c_push_spec v (set_inbuf st b)) as [Hw' Hv'].
    { split; [done|]. split; [done|]. split; [done|]. simpl. rewrite Hemp. constructor. }
    { rewrite Hval. apply wrap32_range. }
    split; [done|]. split; [|done].
    rewrite Hv', Hval, E. unfold a_commit, calc_view, a_set_stack. simpl.
    rewrite E, Hemp. done.
Qed.

Lemma a_set_stack_twice a s1 s2 : a_set_stack (a_set_stack a s1) s2 = a_set_stack a s2.
Proof. by destruct a. Qed.

Lemma a_stack_set a s : a_stack (a_set_stack a s) = s.
Proof. done. Qed.

#[export] Hint Rewrite a_set_stack_twice a_stack_set : rpn_rw.

Lemma c_pop1_spec st b r :
  calc_wf st -> a_stack (calc_view st) = b :: r ->
  exists st', c_pop st = (st', b) /\ calc_wf st' /\ calc_view st' = a_set_stack (calc_view st) r.
Proof.
  intros Hwf E. destruct (c_pop_spec st Hwf) as (st' & Hp & W & V).
  rewrite E in Hp, V. eauto.
Qed.

Lemma c_pop2_spec st b x r :
  calc_wf st -> a_stack (calc_view st) = b :: x :: r ->
  exists st2 st3, c_pop st = (st2, b) /\ c_pop st2 = (st3, x) /\ calc_wf st3 /\
                  calc_view st3 = a_set_stack (calc_view st) r.
Proof.
  intros Hwf E. destruct (c_pop1_spec st b (x :: r) Hwf E) as (st2 & H2 & W2 & V2).
  destruct (c_pop1_spec st2 x r W2) as (st3 & H3 & W3 & V3); [by rewrite V2|].
  exists st2, st3. rewrite V3, V2, a_set_stack_twice. done.
Qed.

(** A push below the capacity conses the value onto the view. *)
Lemma c_push_cons v st :
  calc_wf st -> int32_range v -> (length (a_stack (calc_view st)) < CAPACITY)%nat ->
  calc_wf (c_push v st) /\
  calc_view (c_push v st) = a_set_stack (calc_view st) (v :: a_stack (calc_view st)).
Proof. intros W Hv Hl. rewrite <- apush_lt by done. by apply c_push_spec. Qed.

(** The first steps of every operator handler: commit the input. *)
Ltac start_handler st Hwf :=
  let st1 := fresh "st1" in let o1 := fresh "o1" in
  let W1 := fresh "W1" in let V1 := fresh "V1" in
  destruct (input_push_spec st Hwf) as (W1 & V1 & _);
  destruct (input_push st) as [st1 o1]; simpl in W1, V1;
  unfold key_correct, key_undefined; cbn [spec_key digit_of_keycode]; rewrite <- V1;
  rewrite (calc_depth st1 W1);
  pose proof (calc_depth_bound st1 W1);
  pose proof (view_int32 st1 W1).

Lemma rpn_add_correct st : calc_wf st -> key_correct RPN_ADD st (rpn_add st).
Proof.
  intros Hwf. unfold rpn_add. start_handler st Hwf. unfold a_binop.
  destruct (a_stack (calc_view st1)) as [|b [|x r]] eqn:E; simpl length.
  1,2: rewrite decide_False by lia; cbv beta iota; split_and!; auto.
  rewrite decide_True by lia.
  destruct (c_pop2_spec st1 b x r W1 E) as (st2 & st3 & -> & -> & W3 & V3). cbv beta iota.
  destruct (c_push_cons (add32 b x) st3 W3) as [W V];
    [apply wrap32_range | rewrite V3; simpl in *; lia |].
  split_and!; [done | | tauto]. rewrite V, V3. autorewrite with rpn_rw.
  unfold add32. by rewrite Z.add_comm.
Qed.

Lemma a_set_stack_eq a s : a_stack a = s -> a_set_stack a s = a.
Proof. intros <-. apply a_set_stack_id. Qed.

Lemma send_int_events_cases v :
  int32_range v ->
  (0 <= v /\ exists evs, send_int_events v = Ok evs) \/
  (v < 0 /\ send_int_events v = Undefined (UB_out_of_bounds "keyvalmap")).
Proof.
  intros Hv. destruct (decide (0 <= v)).
  - left. split; [done|]. destruct (send_int_nonneg_aux v) as (ds & E & _); [int32_lia|].
    unfold send_int_events. rewrite E. eauto.
  - right. split; [lia|]. unfold send_int_events. rewrite send_int_negative_aux by int32_lia. done.
Qed.

Lemma calc_peek st :
  calc_wf st ->
  stack_peek (cs_stack st) = match a_stack (calc_view st) with
                             | [] => Undefined (UB_out_of_bounds "stack")
                             | v :: _ => Ok v
                             end.
Proof. intros (Hs & _). apply stack_peek_view_aux, Hs. Qed.

(** The dump loop prints the cells from the top down; it is undefined
    exactly when one of them is negative. *)
Lemma rpn_list_loop_spec i arr :
  (i <= length arr)%nat -> Forall int32_range (take i arr) ->
  match rpn_list_loop i arr with
  | Ok _ => ~ Exists (fun v => v < 0) (reverse (take i arr))
  | Undefined _ => Exists (fun v => v < 0) (reverse (take i arr))
  end.
Proof.
  induction i as [|i IH]; intros Hi Hall; cbn [rpn_list_loop]; [inversion 1|].
  rewrite take_S_total in * by lia. rewrite reverse_snoc.
  apply Forall_app in Hall as [Hall Hd]. apply Forall_inv in Hd.
  specialize (IH ltac:(lia) Hall).
  destruct (send_int_events_cases _ Hd) as [[Hnn [evs ->]] | [Hneg ->]]; cbn [obind].
  - destruct (rpn_list_loop i arr); cbn [obind].
    + intros Hex. apply Exists_cons in Hex as [? | ?]; [lia | done].
    + by apply Exists_cons_tl.
  - by apply Exists_cons_hd.
Qed.

Ltac handler_noop :=
  match goal with |- context [decide (?a < ?b)%nat] => rewrite (decide_False (P := (a < b)%nat)) by lia end;
  cbv beta iota; split_and!; auto.

Lemma rpn_sub_correct st : calc_wf st -> key_correct RPN_SUB st (rpn_sub st).
Proof.
  intros Hwf. unfold rpn_sub. start_handler st Hwf. unfold a_binop.
  destruct (a_stack (calc_view st1)) as [|b [|x r]] eqn:E; simpl length; [handler_noop..|].
  rewrite decide_True by lia.
  destruct (c_pop2_spec st1 b x r W1 E) as (st2 & st3 & -> & -> & W3 & V3). cbv beta iota.
  destruct (c_push_cons (sub32 x b) st3 W3) as [W V];
    [apply wrap32_range | rewrite V3; simpl in *; lia |].
  split_and!; [done | | tauto]. rewrite V, V3. by autorewrite with rpn_rw.
Qed.

Lemma rpn_mul_correct st : calc_wf st -> key_correct RPN_MUL st (rpn_mul st).
Proof.
  intros Hwf. unfold rpn_mul. start_handler st Hwf. unfold a_binop.
  destruct (a_stack (calc_view st1)) as [|b [|x r]] eqn:E; simpl length; [handler_noop..|].
  rewrite decide_True by lia.
  destruct (c_pop2_spec st1 b x r W1 E) as (st2 & st3 & -> & -> & W3 & V3). cbv beta iota.
  destruct (c_push_cons (mul32 b x) st3 W3) as [W V];
    [apply wrap32_range | rewrite V3; simpl in *; lia |].
  split_and!; [done | | tauto]. rewrite V, V3. autorewrite with rpn_rw.
  unfold mul32. by rewrite Z.mul_comm.
Qed.

Lemma rpn_div_correct st : calc_wf st -> key_correct RPN_DIV st (rpn_div st).
Proof.
  intros Hwf. unfold rpn_div. start_handler st Hwf. unfold a_binop.
  destruct (a_stack (calc_view st1)) as [|b [|x r]] eqn:E; simpl length;
    [handler_noop | destruct (decide (b = 0)); handler_noop |].
  rewrite decide_True by lia.
  destruct (c_pop2_spec st1 b x r W1 E) as (st2 & st3 & -> & -> & W3 & V3). cbv beta iota.
  case_decide as Hb; [done|]. cbv beta iota.
  destruct (c_push_cons (wrap32 (Z.quot x b)) st3 W3) as [W V];
    [apply wrap32_range | rewrite V3; simpl in *; lia |].
  split_and!; [done | | tauto]. rewrite V, V3. by autorewrite with rpn_rw.
Qed.

Lemma rpn_neg_correct st : calc_wf st -> key_correct RPN_NEG st (rpn_neg st).
Proof.
  intros Hwf. unfold rpn_neg. start_handler st Hwf.
  destruct (a_stack (calc_view st1)) as [|x r] eqn:E; simpl length; [handler_noop|].
  rewrite decide_True by lia.
  destruct (c_pop1_spec st1 x r W1 E) as (st2 & -> & W2 & V2). cbv beta iota.
  destruct (c_push_cons (neg32 x) st2 W2) as [W V];
    [apply wrap32_range | rewrite V2; simpl in *; lia |].
  split_and!; [done | | tauto]. rewrite V, V2. by autorewrite with rpn_rw.
Qed.

Lemma rpn_dup_correct st : calc_wf st -> key_correct RPN_DUP st (rpn_dup st).
Proof.
  intros Hwf. unfold rpn_dup. start_handler st Hwf.
  destruct (a_stack (calc_view st1)) as [|x r] eqn:E; simpl length; [handler_noop|].
  rewrite decide_True by lia.
  destruct (c_pop1_spec st1 x r W1 E) as (st2 & -> & W2 & V2). cbv beta iota.
  assert (Hx : int32_range x) by (eapply Forall_inv; eauto).
  destruct (c_push_cons x st2 W2) as [W V]; [done | rewrite V2; simpl in *; lia |].
  destruct (c_push_spec x (c_push x st2) W Hx) as [W' V'].
  split_and!; [done | | tauto]. rewrite V', V, V2. autorewrite with rpn_rw.
  rewrite (apush_lt x r) by (simpl in *; lia). done.
Qed.

Lemma rpn_swap_correct st : calc_wf st -> key_correct RPN_SWAP st (rpn_swap st).
Proof.
  intros Hwf. unfold rpn_swap. start_handler st Hwf.
  destruct (a_stack (calc_view st1)) as [|b [|x r]] eqn:E; simpl length; [handler_noop..|].
  rewrite decide_True by lia.
  destruct (c_pop2_spec st1 b x r W1 E) as (st2 & st3 & -> & -> & W3 & V3). cbv beta iota.
  apply Forall_cons in H0 as [Hb H0]. apply Forall_cons in H0 as [Hx _].
  destruct (c_push_cons b st3 W3) as [W V]; [done | rewrite V3; simpl in *; lia |].
  destruct (c_push_cons x (c_push b st3) W) as [W' V'];
    [done | rewrite V, V3; simpl in *; lia |].
  split_and!; [done | | tauto]. rewrite V', V, V3. by autorewrite with rpn_rw.
Qed.

Lemma rpn_pop_correct st : calc_wf st -> key_correct RPN_POP st (rpn_pop st).
Proof.
  intros Hwf. unfold rpn_pop. start_handler st Hwf.
  destruct (a_stack (calc_view st1)) as [|x r] eqn:E; simpl length.
  { handler_noop. by rewrite a_set_stack_eq. }
  rewrite decide_True by lia.
  destruct (c_pop1_spec st1 x r W1 E) as (st2 & -> & W2 & V2). cbv beta iota.
  apply Forall_inv in H0.
  destruct (send_int_events_cases x H0) as [[Hnn [evs ->]] | [Hneg ->]]; cbn [obind]; [|done].
  split_and!; [done | done | lia].
Qed.

Lemma rpn_peek_correct st : calc_wf st -> key_correct RPN_PEEK st (rpn_peek st).
Proof.
  intros Hwf. unfold rpn_peek. start_handler st Hwf. rewrite (calc_peek st1 W1).
  destruct (a_stack (calc_view st1)) as [|x r] eqn:E; simpl length; [handler_noop|].
  rewrite decide_True by lia. cbn [obind].
  apply Forall_inv in H0.
  destruct (send_int_events_cases x H0) as [[Hnn [evs ->]] | [Hneg ->]]; cbn [obind]; [|done].
  split_and!; [done | done | lia].
Qed.

Lemma rpn_list_correct st : calc_wf st -> key_correct RPN_LIST st (rpn_list st).
Proof.
  intros Hwf. unfold rpn_list, key_correct, key_undefined.
  destruct (input_push_spec st Hwf) as (W1 & V1 & _).
  destruct (input_push st) as [st1 o1]; simpl in W1, V1.
  cbn [spec_key digit_of_keycode]. rewrite <- V1.
  destruct (proj1 W1) as [Hl Hp].
  pose proof (rpn_list_loop_spec (stackpos (cs_stack st1)) (stack (cs_stack st1))
                ltac:(lia) (Forall_take _ _ _ (proj1 (proj2 W1)))) as L.
  destruct (rpn_list_loop _ _); cbn [obind]; [split_and!; [done | done | exact L] | exact L].
Qed.

Lemma Forall_removelast {A} (P : A -> Prop) l : Forall P l -> Forall P (removelast l).
Proof. induction 1 as [|x [|y l] Hx Hl IH]; simpl; auto. Qed.

Lemma rpn_digit_correct c n st :
  digit_of_keycode c = Some n -> calc_wf st -> key_correct c st (Ok (rpn_digit n st)).
Proof.
  intros Hc (Hs & Hi & Hb & Hd).
  assert (Hn : is_digit n) by (destruct c; simpl in Hc; try discriminate; injection Hc as <-; split; lia).
  assert (Hto : to_u8 n = n) by (unfold to_u8, is_digit in *; apply Z.mod_small; lia).
  pose proof (record_input_digits_aux n _ Hb) as Hr. rewrite Hto in Hr.
  unfold key_correct. split_and!.
  - split; [done|]. split; [done|]. split; [by apply record_input_wf|]. simpl.
    rewrite Hr. case_decide; [apply Forall_app; auto | done].
  - unfold spec_key, calc_view. rewrite Hc. simpl. rewrite Hr, length_inbuf_digits by done.
    unfold INPUT_CAPACITY, MAX_INPUT. case_decide; case_decide; try lia; done.
  - destruct c; try discriminate; simpl; tauto.
Qed.

Lemma rpn_bspc_correct st : calc_wf st -> key_correct RPN_BSPC st (Ok (rpn_bspc st)).
Proof.
  intros (Hs & Hi & Hb & Hd). unfold key_correct, calc_view, rpn_bspc. simpl.
  rewrite backspace_input_digits_aux by done. split_and!; try done.
  - split; [done|]. split; [done|]. split; [by apply backspace_input_wf|].
    simpl. rewrite backspace_input_digits_aux by done. by apply Forall_removelast.
  - tauto.
Qed.

Lemma rpn_enter_correct st : calc_wf st -> key_correct RPN_ENTER st (Ok (input_push st)).
Proof.
  intros Hwf. destruct (input_push_spec st Hwf) as (W & V & _).
  unfold key_correct. destruct (input_push st). simpl in *. split_and!; auto.
Qed.

(** Every handler is correct with respect to the abstract calculator. *)
Lemma process_key_correct c st : calc_wf st -> key_correct c st (process_key c st).
Proof.
  intros Hwf. destruct c; simpl process_key;
    first [ apply rpn_digit_correct; [reflexivity | done]
          | apply rpn_bspc_correct | apply rpn_enter_correct
          | apply rpn_pop_correct | apply rpn_peek_correct | apply rpn_add_correct
          | apply rpn_sub_correct | apply rpn_neg_correct | apply rpn_mul_correct
          | apply rpn_div_correct | apply rpn_dup_correct | apply rpn_swap_correct
          | apply rpn_list_correct ]; done.
Qed.

(** ** Properties *)

(** C1: Refinement: every key handler that returns moves the abstract view of
    the state (typed digits, stack top first) exactly as the calculator of
    the spec does. *)
Theorem process_key_refines c st st' out :
  calc_wf st -> process_key c st = Ok (st', out) ->
  calc_view st' = spec_key c (calc_view st).
Proof.
  intros Hwf E. pose proof (process_key_correct c st Hwf) as H.
  rewrite E in H. apply H.
Qed.

(** Every key handler that returns preserves the invariant. *)
Theorem process_key_wf_aux c st st' out :
  calc_wf st -> process_key c st = Ok (st', out) -> calc_wf st'.
Proof.
  intros Hwf E. pose proof (process_key_correct c st Hwf) as H.
  rewrite E in H. apply H.
Qed.

(** C27: Every key handler that returns preserves the invariant. *)
Theorem process_key_wf c st st' out :
  calc_wf st -> process_key c st = Ok (st', out) -> calc_wf st'.
Proof. intros; eapply process_key_wf_aux; eassumption. Qed.

(** A key handler has undefined behaviour exactly in the cases of
    [key_undefined]: DIV with a zero divisor on a stack of depth two or
    more, POP and PEEK of a negative top, LIST of a stack holding a
    negative value (all after committing the typed digits). *)
Theorem process_key_undefined_iff_aux c st :
  calc_wf st ->
  (exists u, process_key c st = Undefined u) <-> key_undefined c (calc_view st).
Proof.
  intros Hwf. pose proof (process_key_correct c st Hwf) as H.
  destruct (process_key c st) as [[st' out]|u]; split.
  - by intros [? ?].
  - intros Hu. exfalso. by apply H.
  - done.
  - eauto.
Qed.

(** C2: A key handler has undefined behaviour exactly in the cases of
    [key_undefined]: DIV with a zero divisor on a stack of depth two or
    more, POP and PEEK of a negative top, LIST of a stack holding a
    negative value (all after committing the typed digits). *)
Theorem process_key_undefined_iff c st :
  calc_wf st ->
  (exists u, process_key c st = Undefined u) <-> key_undefined c (calc_view st).
Proof. intros; eapply process_key_undefined_iff_aux; eassumption. Qed.

(** The states reachable from power-up by a sequence of key events. *)
Inductive reachable (SAFE_RANGE : Z) : calc_state -> Prop :=
| reach_init : reachable SAFE_RANGE calc_init
| reach_step st kc pressed st' out ret :
    reachable SAFE_RANGE st ->
    process_record_user SAFE_RANGE kc pressed st = Ok (st', out, ret) ->
    reachable SAFE_RANGE st'.

Lemma process_record_user_wf SAFE_RANGE kc pressed st st' out ret :
  calc_wf st -> process_record_user SAFE_RANGE kc pressed st = Ok (st', out, ret) ->
  calc_wf st'.
Proof.
  intros Hwf E. unfold process_record_user in E.
  destruct pressed; [|by injection E as <- _ _].
  destruct (cs_mode st). destruct (decode_keycode SAFE_RANGE kc) as [c|]; [|by injection E as <- _ _].
  destruct (process_key c st) as [[st1 o1]|] eqn:Ek; [|discriminate].
  injection E as <- _ _. eapply process_key_wf_aux; eauto.
Qed.

(** C3: Every reachable state satisfies the invariant: the counters never
    exceed their capacities (so the [uint8_t] and [uint16_t] increments
    never wrap), the arrays keep their sizes, the stack holds [int32_t]
    values and the input buffer holds digits. *)
Theorem reachable_wf SAFE_RANGE st : reachable SAFE_RANGE st -> calc_wf st.
Proof.
  induction 1; [apply calc_init_wf | eapply process_record_user_wf; eauto].
Qed.

End Calc.
