(* ===== verification/Properties.v ===== *)
(** * The testable properties of the spec (section 8) and the divergences
      between the spec and keymap.c

    Key sequences are run through [Calc.process_key] by [run_keys], which
    stops at the first undefined behaviour.  The lemma [run_keys_spec]
    lifts the refinement theorem of [Calc.v] to sequences: when no step of
    the abstract run is one of the undefined cases, the concrete run
    returns and ends in the abstract state of the spec.  The properties
    are then computed on the abstract calculator of [Spec.v]. *)

From S2P Require Import Prelude Keycodes Spec InputBuffer Stack SendInt Calc.
Import Keycodes Spec InputBuffer Stack SendInt Calc.

Module Properties.

(** A sequence of key-down events of custom keycodes. *)
Fixpoint run_keys (ks : list custom_keycodes) (st : calc_state)
    : outcome (calc_state * list out_event) :=
  match ks with
  | [] => Ok (st, [])
  | c :: ks' =>
      match process_key c st with
      | Ok (st1, o1) =>
          match run_keys ks' st1 with
          | Ok (st2, o2) => Ok (st2, o1 ++ o2)
          | Undefined u => Undefined u
          end
      | Undefined u => Undefined u
      end
  end.

(** The state after a sequence of keys from power-up (power-up state if
    the sequence does not return). *)
Definition state_after (ks : list custom_keycodes) : calc_state :=
  match run_keys ks calc_init with
  | Ok (st, _) => st
  | Undefined _ => calc_init
  end.

(** The abstract run, and the absence of undefined cases along it. *)
Fixpoint spec_run (ks : list custom_keycodes) (a : astate) : astate :=
  match ks with
  | [] => a
  | c :: ks' => spec_run ks' (spec_key c a)
  end.

Fixpoint spec_safe (ks : list custom_keycodes) (a : astate) : Prop :=
  match ks with
  | [] => True
  | c :: ks' => ~ key_undefined c a /\ spec_safe ks' (spec_key c a)
  end.

(** The digit key of a decimal digit. *)
Definition digit_key (d : Z) : custom_keycodes :=
  match d with
  | 0 => RPN_0 | 1 => RPN_1 | 2 => RPN_2 | 3 => RPN_3 | 4 => RPN_4
  | 5 => RPN_5 | 6 => RPN_6 | 7 => RPN_7 | 8 => RPN_8 | _ => RPN_9
  end.

(** The reply of each operator to a stack too shallow for it. *)
Definition underflow_message (c : custom_keycodes) : string :=
  match c with
  | RPN_ADD => "# can't +" | RPN_SUB => "# can't -" | RPN_MUL => "# can't *"
  | RPN_DIV => "# can't /" | RPN_DUP => "# can't dup" | RPN_NEG => "# can't negate"
  | RPN_SWAP => "# can't dup" | _ => "# empty"
  end.

(** The state after typing 1, ENTER, 2: the stack holds 1 and the input 2. *)
Definition S_1_2 : calc_state := state_after [RPN_1; RPN_ENTER; RPN_2].

(** The two-operand arithmetic keys: the new top as a function of the
    second value [x] and the top [b] (the spec's [a op b]), and the line
    the handler acknowledges with. *)
Definition binop_of (c : custom_keycodes) : option ((Z -> Z -> Z) * string) :=
  match c with
  | RPN_ADD => Some (add32, "+")
  | RPN_SUB => Some (sub32, "-")
  | RPN_MUL => Some (mul32, "*")
  | RPN_DIV => Some ((fun x b => wrap32 (Z.quot x b)), "/")
  | _ => None
  end.

(** What LIST prints for one stack value [v]: ["# "], the keys of its
    decimal digits, a newline. *)
Definition dump_line (v : Z) : list out_event :=
  [SendString "# "] ++ map TapCode (map digit_keycode (decimal v)) ++ [SendString (line "")].

(** ** Lemmas *)

Lemma process_key_ok c st :
  calc_wf st -> ~ key_undefined c (calc_view st) ->
  exists st' out, process_key c st = Ok (st', out) /\ calc_wf st' /\
                  calc_view st' = spec_key c (calc_view st).
Proof.
  intros Hwf Hn. pose proof (process_key_correct c st Hwf) as H.
  destruct (process_key c st) as [[st' out]|u]; [|done].
  destruct H as (? & ? & _). eauto.
Qed.

Lemma run_keys_spec ks st :
  calc_wf st -> spec_safe ks (calc_view st) ->
  exists st' out, run_keys ks st = Ok (st', out) /\ calc_wf st' /\
                  calc_view st' = spec_run ks (calc_view st).
Proof.
  revert st. induction ks as [|c ks IH]; intros st Hwf Hs; simpl; [eauto|].
  destruct Hs as [Hn Hs].
  destruct (process_key_ok c st Hwf Hn) as (st1 & o1 & -> & W1 & V1).
  rewrite <- V1 in Hs. destruct (IH st1 W1 Hs) as (st2 & o2 & -> & W2 & V2).
  exists st2, (o1 ++ o2). split_and!; [done | done |]. by rewrite V2, V1.
Qed.

Lemma run_keys_wf ks st st' out :
  calc_wf st -> run_keys ks st = Ok (st', out) -> calc_wf st'.
Proof.
  revert st out. induction ks as [|c ks IH]; intros st out Hwf E; simpl in E.
  - by injection E as <- _.
  - destruct (process_key c st) as [[st1 o1]|] eqn:E1; [|discriminate].
    destruct (run_keys ks st1) as [[st2 o2]|] eqn:E2; [|discriminate].
    injection E as <- _. apply (IH st1 o2); [eapply process_key_wf_aux; eauto | exact E2].
Qed.

Lemma state_after_wf ks : calc_wf (state_after ks).
Proof.
  unfold state_after. destruct (run_keys ks calc_init) as [[st o]|] eqn:E;
    [eapply run_keys_wf; [apply calc_init_wf | exact E] | apply calc_init_wf].
Qed.

Lemma spec_run_app ks1 ks2 a : spec_run (ks1 ++ ks2) a = spec_run ks2 (spec_run ks1 a).
Proof. revert a. induction ks1; simpl; auto. Qed.

Lemma spec_safe_app ks1 ks2 a :
  spec_safe ks1 a -> spec_safe ks2 (spec_run ks1 a) -> spec_safe (ks1 ++ ks2) a.
Proof. revert a. induction ks1; simpl; intuition. Qed.

(** Keys other than DIV, POP, PEEK and LIST never have undefined behaviour. *)
Lemma spec_safe_no_ub ks a :
  Forall (fun c => c <> RPN_DIV /\ c <> RPN_POP /\ c <> RPN_PEEK /\ c <> RPN_LIST) ks ->
  spec_safe ks a.
Proof.
  revert a. induction ks as [|c ks IH]; intros a H; simpl; [done|].
  apply Forall_cons in H as [Hc H]. split; [|by apply IH].
  destruct c; simpl; tauto.
Qed.

Lemma digit_of_digit_key d : is_digit d -> digit_of_keycode (digit_key d) = Some d.
Proof.
  intros Hd. unfold is_digit in Hd.
  assert (d = 0 \/ d = 1 \/ d = 2 \/ d = 3 \/ d = 4 \/ d = 5 \/ d = 6 \/ d = 7 \/ d = 8 \/ d = 9)
    as Hc by lia.
  destruct_or! Hc; subst; reflexivity.
Qed.

Lemma digit_key_no_ub ds :
  Forall is_digit ds ->
  Forall (fun c => c <> RPN_DIV /\ c <> RPN_POP /\ c <> RPN_PEEK /\ c <> RPN_LIST)
         (map digit_key ds).
Proof.
  intros H. apply Forall_map. eapply Forall_impl; [exact H|].
  intros d Hd. pose proof (digit_of_digit_key d Hd) as E.
  split_and!; intros Hc; rewrite Hc in E; discriminate.
Qed.

(** Typing digits into an empty input buffer records them, up to 15. *)
Lemma spec_run_digits ds s :
  Forall is_digit ds -> (length ds <= INPUT_CAPACITY)%nat ->
  spec_run (map digit_key ds) (mk_astate [] s) = mk_astate ds s.
Proof.
  induction ds as [|d ds IH] using rev_ind; intros Hd Hl; [done|].
  apply Forall_app in Hd as [Hds Hd]. apply Forall_inv in Hd.
  rewrite length_app in Hl. simpl in Hl.
  rewrite map_app, spec_run_app, IH by (done || lia). cbn [spec_run map]. unfold spec_key.
  rewrite digit_of_digit_key by done. cbn [a_input a_stack]. rewrite decide_True by lia. done.
Qed.

Lemma input_push_empty st :
  calc_wf st -> a_input (calc_view st) = [] -> input_push st = (st, []).
Proof.
  intros Hwf Hin. unfold input_push. rewrite (calc_input_length st Hwf), Hin.
  by rewrite decide_False by (simpl; lia).
Qed.

Lemma rpn_div_undefined_kind st u :
  process_key RPN_DIV st = Undefined u -> u = UB_division_by_zero.
Proof. simpl. unfold rpn_div. repeat case_match; congruence. Qed.

(** ** Properties *)

(** Digits typed into an empty input buffer and committed by ENTER push
    their decimal value (leading zeros ignored) reduced modulo 2^32 to an
    [int32_t]: up to 15 digits are accepted, more than fit in 32 bits. *)
Theorem enter_pushes_typed_value_aux st ds :
  calc_wf st -> a_input (calc_view st) = [] -> Forall is_digit ds ->
  (1 <= length ds <= INPUT_CAPACITY)%nat -> (length (a_stack (calc_view st)) < CAPACITY)%nat ->
  exists st' out, run_keys (map digit_key ds ++ [RPN_ENTER]) st = Ok (st', out) /\
    calc_view st' = mk_astate [] (wrap32 (digits_value ds) :: a_stack (calc_view st)).
Proof.
  intros Hwf Hin Hd Hl Hcap.
  destruct (run_keys_spec (map digit_key ds ++ [RPN_ENTER]) st Hwf) as (st' & out & E & _ & V).
  { apply spec_safe_no_ub, Forall_app. split; [by apply digit_key_no_ub|].
    repeat constructor; discriminate. }
  exists st', out. split; [done|]. rewrite V, spec_run_app.
  destruct (calc_view st) as [inp s]. simpl in Hin, Hcap |- *. subst inp.
  rewrite spec_run_digits by (done || lia).
  destruct ds as [|d ds]; [simpl in Hl; lia|]. cbn [spec_key digit_of_keycode a_commit a_input a_stack].
  rewrite apush_lt by done. done.
Qed.

(** C5: Digits typed into an empty input buffer and committed by ENTER push
    their decimal value (leading zeros ignored) reduced modulo 2^32 to an
    [int32_t]: up to 15 digits are accepted, more than fit in 32 bits. *)
Theorem enter_pushes_typed_value st ds :
  calc_wf st -> a_input (calc_view st) = [] -> Forall is_digit ds ->
  (1 <= length ds <= INPUT_CAPACITY)%nat -> (length (a_stack (calc_view st)) < CAPACITY)%nat ->
  exists st' out, run_keys (map digit_key ds ++ [RPN_ENTER]) st = Ok (st', out) /\
    calc_view st' = mk_astate [] (wrap32 (digits_value ds) :: a_stack (calc_view st)).
Proof. intros; eapply enter_pushes_typed_value_aux; eassumption. Qed.

(** Typing "4294967297" (ten digits) and ENTER pushes 1. *)
Lemma enter_pushes_typed_value_witness :
  exists st' out,
    run_keys (map digit_key [4; 2; 9; 4; 9; 6; 7; 2; 9; 7] ++ [RPN_ENTER]) calc_init = Ok (st', out) /\
    calc_view st' = mk_astate [] (wrap32 (digits_value [4; 2; 9; 4; 9; 6; 7; 2; 9; 7])
                                  :: a_stack (calc_view calc_init)).
Proof.
  apply enter_pushes_typed_value.
  - apply calc_init_wf.
  - reflexivity.
  - repeat constructor; unfold is_digit; lia.
  - simpl. unfold INPUT_CAPACITY. lia.
  - simpl. unfold CAPACITY. lia.
Defined.

(** C26: Up to nine digits the pushed value is exactly the typed number:
    "007" then ENTER pushes 7. *)
Theorem enter_pushes_exact st ds :
  calc_wf st -> a_input (calc_view st) = [] -> Forall is_digit ds ->
  (1 <= length ds <= 9)%nat -> (length (a_stack (calc_view st)) < CAPACITY)%nat ->
  exists st' out, run_keys (map digit_key ds ++ [RPN_ENTER]) st = Ok (st', out) /\
    calc_view st' = mk_astate [] (digits_value ds :: a_stack (calc_view st)).
Proof.
  intros Hwf Hin Hd Hl Hcap.
  destruct (enter_pushes_typed_value_aux st ds) as (st' & out & E & V);
    try (done || unfold INPUT_CAPACITY; lia).
  rewrite wrap32_small in V by (apply digits_value_int32; [done | lia]). eauto.
Qed.

Lemma enter_pushes_exact_witness :
  exists st' out, run_keys (map digit_key [0; 0; 7] ++ [RPN_ENTER]) calc_init = Ok (st', out) /\
    calc_view st' = mk_astate [] (digits_value [0; 0; 7] :: a_stack (calc_view calc_init)).
Proof.
  apply enter_pushes_exact.
  - apply calc_init_wf.
  - reflexivity.
  - repeat constructor; unfold is_digit; lia.
  - simpl. lia.
  - simpl. unfold CAPACITY. lia.
Defined.

(** C10: Division by zero: with a zero on top of at least two values (after
    the commit), DIV has undefined behaviour, where the spec requires a
    reported error and an unchanged stack. *)
Theorem div_by_zero_undefined st x r :
  calc_wf st -> a_stack (a_commit (calc_view st)) = 0 :: x :: r ->
  process_key RPN_DIV st = Undefined UB_division_by_zero.
Proof.
  intros Hwf Hs. destruct (proj2 (process_key_undefined_iff_aux RPN_DIV st Hwf)) as [u Hu].
  { unfold key_undefined. rewrite Hs. done. }
  rewrite Hu. f_equal. exact (rpn_div_undefined_kind st u Hu).
Qed.

Lemma div_by_zero_undefined_witness :
  calc_wf (state_after [RPN_5; RPN_ENTER; RPN_0]) /\
  a_stack (a_commit (calc_view (state_after [RPN_5; RPN_ENTER; RPN_0]))) = [0; 5] /\
  process_key RPN_DIV (state_after [RPN_5; RPN_ENTER; RPN_0]) = Undefined UB_division_by_zero.
Proof.
  split; [apply state_after_wf|]. split; [vm_compute; reflexivity|].
  apply (div_by_zero_undefined _ 5 []); [apply state_after_wf | vm_compute; reflexivity].
Defined.

(** The common start of the two-operand handlers with an empty input and
    at least two values: nothing is committed and the two pops return the
    top [b], then [x]. *)
Lemma two_operand_pops st b x r :
  calc_wf st -> calc_view st = mk_astate [] (b :: x :: r) ->
  input_push st = (st, []) /\ (1 < stackpos (cs_stack st))%nat /\
  (2 + length r <= CAPACITY)%nat /\
  exists st2 st3, c_pop st = (st2, b) /\ c_pop st2 = (st3, x) /\ calc_wf st3 /\
                  calc_view st3 = mk_astate [] r.
Proof.
  intros Hwf Hv. pose proof (calc_depth_bound st Hwf) as Hb. rewrite Hv in Hb. simpl in Hb.
  split; [apply input_push_empty; [done | by rewrite Hv]|].
  split; [rewrite (calc_depth st Hwf), Hv; simpl; lia|]. split; [lia|].
  destruct (c_pop2_spec st b x r Hwf ltac:(by rewrite Hv)) as (st2 & st3 & H2 & H3 & W3 & V3).
  exists st2, st3. split_and!; [done..|]. by rewrite V3, Hv.
Qed.

(** C16: SWAP exchanges the two top values and acknowledges with "swap". *)
Theorem swap_exchanges st b x r :
  calc_wf st -> calc_view st = mk_astate [] (b :: x :: r) ->
  exists st', process_key RPN_SWAP st = Ok (st', [SendString (line "swap")]) /\
              calc_view st' = mk_astate [] (x :: b :: r).
Proof.
  intros Hwf Hv. pose proof (view_int32 st Hwf) as Hi. rewrite Hv in Hi.
  apply Forall_cons in Hi as [Hbi Hi]. apply Forall_cons in Hi as [Hxi _].
  destruct (two_operand_pops st b x r Hwf Hv) as (Hip & Hd & Hl & st2 & st3 & H2 & H3 & W3 & V3).
  cbn [process_key]. unfold rpn_swap. rewrite Hip. cbv beta iota.
  rewrite decide_True by done. rewrite H2. cbv beta iota. rewrite H3. cbv beta iota.
  eexists. split; [reflexivity|].
  destruct (c_push_cons b st3 W3 Hbi) as [W4 V4]; [rewrite V3; simpl; lia|].
  destruct (c_push_cons x _ W4 Hxi) as [_ V5]; [rewrite V4, V3; simpl; lia|].
  by rewrite V5, V4, V3.
Qed.

Lemma swap_exchanges_witness :
  exists st', process_key RPN_SWAP (state_after [RPN_1; RPN_ENTER; RPN_2; RPN_ENTER]) =
                Ok (st', [SendString (line "swap")]) /\
              calc_view st' = mk_astate [] [1; 2].
Proof. apply swap_exchanges; [apply state_after_wf | vm_compute; reflexivity]. Defined.

(** C17: ADD, SUB, MUL and DIV (by a non-zero top) replace the two top
    values [b] (the top) and [x] by [x op b], wrapped to [int32_t], and
    acknowledge with the operator's line. *)
Theorem binop_result c f msg st b x r :
  calc_wf st -> calc_view st = mk_astate [] (b :: x :: r) -> binop_of c = Some (f, msg) ->
  (c = RPN_DIV -> b <> 0) ->
  exists st', process_key c st = Ok (st', [SendString (line msg)]) /\
              calc_view st' = mk_astate [] (f x b :: r).
Proof.
  intros Hwf Hv Hc Hz.
  destruct (two_operand_pops st b x r Hwf Hv) as (Hip & Hd & Hl & st2 & st3 & H2 & H3 & W3 & V3).
  assert (Hpush : forall v, int32_range v -> calc_view (c_push v st3) = mk_astate [] (v :: r)).
  { intros v Hr. destruct (c_push_cons v st3 W3 Hr) as [_ V]; [rewrite V3; simpl; lia|]. by rewrite V, V3. }
  destruct c; simplify_eq/=; cbn [process_key];
    [unfold rpn_add | unfold rpn_sub | unfold rpn_div | unfold rpn_mul];
    rewrite Hip; cbv beta iota; rewrite decide_True by done; rewrite H2; cbv beta iota;
    rewrite H3; cbv beta iota; try rewrite decide_False by auto;
    eexists; (split; [reflexivity|]); rewrite Hpush by apply wrap32_range; try done.
  all: unfold add32, mul32; do 3 f_equal; lia.
Qed.

Lemma binop_result_witness :
  exists st', process_key RPN_SUB (state_after [RPN_7; RPN_ENTER; RPN_2; RPN_ENTER]) =
                Ok (st', [SendString (line "-")]) /\
              calc_view st' = mk_astate [] [sub32 7 2].
Proof.
  apply (binop_result RPN_SUB sub32 "-" _ 2 7 []);
    [apply state_after_wf | vm_compute; reflexivity | reflexivity | discriminate].
Defined.

(** Evaluate the abstract calculator on a symbolic state. *)
Ltac spec_eval :=
  cbv [spec_run spec_safe spec_key digit_of_keycode key_undefined a_commit a_binop
       a_set_stack a_input a_stack apop fst snd].

(** C14: DUP then POP restores the stack when there is room for the copy (and
    the popped value prints, that is, it is not negative). *)
Theorem dup_pop_roundtrip st x r :
  calc_wf st -> calc_view st = mk_astate [] (x :: r) -> 0 <= x ->
  (S (length r) < CAPACITY)%nat ->
  exists st' out, run_keys [RPN_DUP; RPN_POP] st = Ok (st', out) /\ calc_view st' = calc_view st.
Proof.
  intros Hwf Hv Hx Hl.
  assert (E1 : apush x r = x :: r) by (apply apush_lt; lia).
  assert (E2 : apush x (x :: r) = x :: x :: r) by (apply apush_lt; simpl; lia).
  destruct (run_keys_spec [RPN_DUP; RPN_POP] st Hwf) as (st' & out & E & _ & V).
  { rewrite Hv. spec_eval. rewrite E1, E2. split_and!; auto; lia. }
  exists st', out. split; [done|]. rewrite V, Hv. spec_eval. rewrite E1, E2. done.
Qed.

Lemma dup_pop_roundtrip_witness :
  exists st' out, run_keys [RPN_DUP; RPN_POP] (state_after [RPN_4; RPN_2; RPN_ENTER]) = Ok (st', out) /\
                  calc_view st' = calc_view (state_after [RPN_4; RPN_2; RPN_ENTER]).
Proof.
  apply (dup_pop_roundtrip _ 42 []);
    [apply state_after_wf | vm_compute; reflexivity | lia | simpl; unfold CAPACITY; lia].
Defined.

(** C15: On a full stack DUP silently drops the copy, so DUP then POP loses the
    top value: the spec's round trip does not hold at capacity. *)
Theorem dup_pop_full_stack st x r :
  calc_wf st -> calc_view st = mk_astate [] (x :: r) -> 0 <= x ->
  S (length r) = CAPACITY ->
  exists st' out, run_keys [RPN_DUP; RPN_POP] st = Ok (st', out) /\ calc_view st' = mk_astate [] r.
Proof.
  intros Hwf Hv Hx Hl.
  assert (E1 : apush x r = x :: r) by (apply apush_lt; lia).
  assert (E2 : apush x (x :: r) = x :: r) by (unfold apush; rewrite decide_False by (simpl; lia); done).
  destruct (run_keys_spec [RPN_DUP; RPN_POP] st Hwf) as (st' & out & E & _ & V).
  { rewrite Hv. spec_eval. rewrite E1, E2. split_and!; auto; lia. }
  exists st', out. split; [done|]. rewrite V, Hv. spec_eval. rewrite E1, E2. done.
Qed.

(** A key sequence that fills the stack with 1024 ones. *)
Definition fill_keys : list custom_keycodes := concat (replicate 1024 [RPN_1; RPN_ENTER]).

Lemma dup_pop_full_stack_witness :
  exists st' out, run_keys [RPN_DUP; RPN_POP] (state_after fill_keys) = Ok (st', out) /\
                  calc_view st' = mk_astate [] (replicate 1023 1).
Proof.
  apply (dup_pop_full_stack _ 1 (replicate 1023 1));
    [apply state_after_wf | vm_compute; reflexivity | lia | reflexivity].
Defined.

(** C18: On an empty calculator every operator that needs operands leaves the
    state unchanged and answers with its one-line message: "# can't <op>"
    for the arithmetic and stack operators, "# empty" for POP and PEEK. *)
Theorem underflow_on_empty c st :
  c ∈ [RPN_ADD; RPN_SUB; RPN_MUL; RPN_DIV; RPN_DUP; RPN_NEG; RPN_SWAP; RPN_POP; RPN_PEEK] ->
  calc_wf st -> calc_view st = mk_astate [] [] ->
  process_key c st = Ok (st, [SendString (line (underflow_message c))]).
Proof.
  intros Hc Hwf Hv.
  assert (Hip : input_push st = (st, [])) by (apply input_push_empty; [done | by rewrite Hv]).
  assert (Hd : stackpos (cs_stack st) = 0%nat) by (rewrite (calc_depth st Hwf), Hv; done).
  apply list_elem_of_In in Hc. simpl in Hc. destruct_or! Hc; try done; subst c;
    cbn [process_key];
    unfold rpn_add, rpn_sub, rpn_mul, rpn_div, rpn_dup, rpn_neg, rpn_swap, rpn_pop, rpn_peek;
    rewrite Hip; cbv beta iota; rewrite Hd; reflexivity.
Qed.

Lemma underflow_on_empty_witness :
  process_key RPN_NEG calc_init = Ok (calc_init, [SendString (line "# can't negate")]).
Proof.
  apply (underflow_on_empty RPN_NEG calc_init);
    [apply list_elem_of_In; simpl; tauto | apply calc_init_wf | reflexivity].
Defined.

(** C19: A failed SWAP answers with the message of DUP, "# can't dup". *)
Theorem swap_underflow_says_dup st :
  calc_wf st -> (length (a_stack (a_commit (calc_view st))) < 2)%nat ->
  exists st' o, process_key RPN_SWAP st = Ok (st', o ++ [SendString (line "# can't dup")]).
Proof.
  intros Hwf Hl. cbn [process_key]. unfold rpn_swap.
  destruct (input_push_spec st Hwf) as (W1 & V1 & _).
  destruct (input_push st) as [st1 o1]. simpl in W1, V1.
  rewrite (calc_depth st1 W1), V1. rewrite decide_False by lia. eauto.
Qed.

Lemma swap_underflow_says_dup_witness :
  exists st' o, process_key RPN_SWAP (state_after [RPN_7]) =
                Ok (st', o ++ [SendString (line "# can't dup")]).
Proof. apply swap_underflow_says_dup; [apply state_after_wf | vm_compute; lia]. Defined.

(** C20: LIST on an empty calculator prints its two frame lines and nothing
    else; the spec asks for an "empty" report. *)
Theorem list_empty_output st :
  calc_wf st -> calc_view st = mk_astate [] [] ->
  process_key RPN_LIST st =
    Ok (st, [SendString (line "#   begin stack dump"); SendString (line "#   end stack dump")]).
Proof.
  intros Hwf Hv.
  assert (Hip : input_push st = (st, [])) by (apply input_push_empty; [done | by rewrite Hv]).
  assert (Hd : stackpos (cs_stack st) = 0%nat) by (rewrite (calc_depth st Hwf), Hv; done).
  cbn [process_key]. unfold rpn_list. rewrite Hip. cbv beta iota. rewrite Hd. reflexivity.
Qed.

Lemma list_empty_output_witness :
  process_key RPN_LIST calc_init =
    Ok (calc_init, [SendString (line "#   begin stack dump"); SendString (line "#   end stack dump")]).
Proof. apply list_empty_output; [apply calc_init_wf | reflexivity]. Defined.

(** The dump loop prints the cells from [i - 1] down to 0. *)
Lemma rpn_list_loop_output i arr :
  (i <= length arr)%nat -> Forall (fun v => 0 <= v <= INT32_MAX) (take i arr) ->
  rpn_list_loop i arr = Ok (concat (map dump_line (reverse (take i arr)))).
Proof.
  induction i as [|i IH]; intros Hi Hall; [done|]. cbn [rpn_list_loop].
  rewrite take_S_total in * by lia. rewrite reverse_snoc.
  apply Forall_app in Hall as [Hall Hd]. apply Forall_inv in Hd.
  unfold send_int_events. rewrite send_int_decimal_aux by done. cbn [obind].
  rewrite IH by (done || lia). cbn [obind map concat]. unfold dump_line.
  rewrite <- !app_assoc. done.
Qed.

(** C9: LIST prints, between its frame lines, one line per stack value
    from the top down with the decimal digits of the value, when no value
    is negative. *)
Theorem list_dump_output st :
  calc_wf st -> Forall (fun v => 0 <= v) (a_stack (a_commit (calc_view st))) ->
  process_key RPN_LIST st =
    Ok ((input_push st).1,
        (input_push st).2 ++ [SendString (line "#   begin stack dump")] ++
        concat (map dump_line (a_stack (a_commit (calc_view st)))) ++
        [SendString (line "#   end stack dump")]).
Proof.
  intros Hwf Hnn. destruct (input_push_spec st Hwf) as (W1 & V1 & _).
  cbn [process_key]. unfold rpn_list. destruct (input_push st) as [st1 o1]. simpl in W1, V1 |- *.
  rewrite <- V1 in Hnn |- *. pose proof (view_int32 st1 W1) as Hi.
  destruct W1 as ([Hl Hp] & _).
  rewrite rpn_list_loop_output; [done|lia|].
  simpl in Hnn, Hi. unfold stack_view in Hnn, Hi.
  rewrite Forall_reverse in Hnn, Hi. apply Forall_and; split; [done|].
  eapply Forall_impl; [exact Hi|]. intros v. unfold int32_range. lia.
Qed.

Lemma list_dump_output_witness :
  process_key RPN_LIST S_1_2 =
    Ok ((input_push S_1_2).1,
        (input_push S_1_2).2 ++ [SendString (line "#   begin stack dump")] ++
        concat (map dump_line (a_stack (a_commit (calc_view S_1_2)))) ++
        [SendString (line "#   end stack dump")]).
Proof. apply list_dump_output; [apply state_after_wf | vm_compute; repeat constructor; discriminate]. Defined.

(** C21: A digit typed into a full input buffer is echoed to the host
    although [record_input] drops it: the transcript shows a digit that is
    not part of the number. *)
Theorem digit_echo_when_full c n st :
  calc_wf st -> digit_of_keycode c = Some n ->
  length (a_input (calc_view st)) = INPUT_CAPACITY ->
  exists st', process_key c st =
                Ok (st', [SendString (String (Ascii.ascii_of_nat (Z.to_nat (48 + n))) EmptyString)]) /\
              calc_view st' = calc_view st.
Proof.
  intros Hwf Hc Hlen.
  assert (E : process_key c st = Ok (rpn_digit n st))
    by (destruct c; cbn in Hc; try discriminate; injection Hc as <-; reflexivity).
  rewrite E. eexists. split; [reflexivity|].
  unfold calc_view. simpl. f_equal.
  rewrite record_input_digits_aux by apply Hwf. rewrite decide_False; [done|].
  rewrite (calc_input_length st Hwf), Hlen. unfold INPUT_CAPACITY, MAX_INPUT. lia.
Qed.

Lemma digit_echo_when_full_witness :
  exists st', process_key RPN_2 (state_after (replicate 15 RPN_1)) =
                Ok (st', [SendString (String (Ascii.ascii_of_nat (Z.to_nat (48 + 2))) EmptyString)]) /\
              calc_view st' = calc_view (state_after (replicate 15 RPN_1)).
Proof. apply digit_echo_when_full; [apply state_after_wf | reflexivity | vm_compute; reflexivity]. Defined.

(** C22: BSPC on an empty input buffer leaves the state unchanged but
    still taps the host's backspace key, erasing a character of the
    transcript that is not a pending digit. *)
Theorem bspc_empty_erases st :
  calc_wf st -> a_input (calc_view st) = [] ->
  process_key RPN_BSPC st = Ok (st, [TapCode KC_BSPC]).
Proof.
  intros Hwf Hin. cbn [process_key]. unfold rpn_bspc, backspace_input.
  rewrite decide_True by (rewrite (calc_input_length st Hwf), Hin; simpl; lia).
  by destruct st as [? []].
Qed.

Lemma bspc_empty_erases_witness :
  process_key RPN_BSPC calc_init = Ok (calc_init, [TapCode KC_BSPC]).
Proof. apply bspc_empty_erases; [apply calc_init_wf | reflexivity]. Defined.

(** C28: [process_record_user] always returns [true] (QMK goes on processing the
    key), and ignores key-up events and keycodes outside the custom range. *)
Theorem process_record_user_passthrough SAFE_RANGE kc pressed st st' out ret :
  process_record_user SAFE_RANGE kc pressed st = Ok (st', out, ret) ->
  ret = true /\
  (pressed = false \/ decode_keycode SAFE_RANGE kc = None -> st' = st /\ out = []).
Proof.
  unfold process_record_user. intros E.
  destruct pressed; [|injection E as <- <- <-; auto].
  destruct (cs_mode st). destruct (decode_keycode SAFE_RANGE kc) as [c|] eqn:Ed;
    [|injection E as <- <- <-; auto].
  destruct (process_key c st) as [[st1 o1]|]; [|discriminate].
  injection E as <- <- <-. split; [done|]. intros [H | H]; discriminate.
Qed.

Lemma process_record_user_passthrough_witness :
  process_record_user 32000 4 true calc_init = Ok (calc_init, [], true) /\ true = true /\
  (true = false \/ decode_keycode 32000 4 = None -> calc_init = calc_init /\ @nil out_event = []).
Proof.
  assert (E : process_record_user 32000 4 true calc_init = Ok (calc_init, [], true)) by reflexivity.
  split; [exact E | exact (process_record_user_passthrough _ _ _ _ _ _ _ E)].
Defined.

(** ** Witnesses of the theorems of [Calc.v] *)


Lemma process_key_refines_witness :
  calc_view (state_after [RPN_1; RPN_ENTER; RPN_2; RPN_ADD]) = spec_key RPN_ADD (calc_view S_1_2).
Proof.
  apply (process_key_refines RPN_ADD S_1_2 _ [SendString (line "<"); SendString (line "+")]).
  - apply state_after_wf.
  - vm_compute. reflexivity.
Defined.

Lemma process_key_wf_witness : calc_wf (state_after [RPN_1; RPN_ENTER; RPN_2; RPN_ADD]).
Proof.
  apply (process_key_wf RPN_ADD S_1_2 _ [SendString (line "<"); SendString (line "+")]).
  - apply state_after_wf.
  - vm_compute. reflexivity.
Defined.

Lemma process_key_undefined_iff_witness :
  (exists u, process_key RPN_DIV (state_after [RPN_1; RPN_ENTER; RPN_0]) = Undefined u) <->
  key_undefined RPN_DIV (calc_view (state_after [RPN_1; RPN_ENTER; RPN_0])).
Proof. apply process_key_undefined_iff, state_after_wf. Defined.

Lemma reachable_wf_witness : calc_wf (rpn_digit 1 calc_init).1.
Proof.
  apply (reachable_wf 32000).
  eapply (reach_step 32000 calc_init 32001 true); [apply reach_init | reflexivity].
Defined.

End Properties.
